(** * yamis release tooling: ci_build.py, zip_releases.py, generate_cov.py

    A shallow embedding of the three maintenance scripts of the yamis
    repository, and the properties of their specification proved (or
    refuted) against it.

    Conventions.  A Python [str] is a [string] (8-bit characters; the
    texts the scripts handle are paths, target triples and console output).
    A Python [bytes] is a [list byte].  The file system is a finite map from
    path strings to nodes; exceptions are values of [exn] and every
    operation returns the file system it leaves behind, also when it
    raises. *)

From Stdlib Require Import ZArith NArith Lia Ascii String DecimalString.
From Stdlib Require Strings.Byte DecimalNat.
From stdpp Require Import base list strings gmap.
From Equations Require Import Equations.

Abbreviation byte := Init.Byte.byte.

Local Open Scope string_scope.
Local Open Scope list_scope.

(* ===================================================================== *)
(** * Python string operations used by the scripts *)
(* ===================================================================== *)

Module PyStr.

(** [s.startswith(p)] *)
Fixpoint startswith (s p : string) {struct p} : bool :=
  match p, s with
  | EmptyString, _ => true
  | String _ _, EmptyString => false
  | String a p', String b s' => if Ascii.eqb a b then startswith s' p' else false
  end.

(** [sub in s] for two strings: [sub] occurs in [s] as a contiguous run. *)
Fixpoint contains (sub s : string) : bool :=
  startswith s sub ||
  match s with
  | EmptyString => false
  | String _ r => contains sub r
  end.

(** [c in chars] for a character. *)
Fixpoint char_in (c : ascii) (chars : string) : bool :=
  match chars with
  | EmptyString => false
  | String d r => Ascii.eqb c d || char_in c r
  end.

(** [str.isspace] on one character, for the code points below 256:
    TAB, LF, VT, FF, CR, FS, GS, RS, US, SPACE, NEL and NBSP. *)
Definition isspace (c : ascii) : bool :=
  let n := N_of_ascii c in
  ((9 <=? n) && (n <=? 13) || (28 <=? n) && (n <=? 32) || (n =? 133) || (n =? 160))%N.

Fixpoint lstrip_by (p : ascii -> bool) (s : string) : string :=
  match s with
  | EmptyString => EmptyString
  | String c r => if p c then lstrip_by p r else s
  end.

Fixpoint rstrip_by (p : ascii -> bool) (s : string) : string :=
  match s with
  | EmptyString => EmptyString
  | String c r =>
      match rstrip_by p r with
      | EmptyString => if p c then EmptyString else String c EmptyString
      | r' => String c r'
      end
  end.

(** [s.strip()] and [s.strip(chars)]: strip at both ends. *)
Definition strip_by (p : ascii -> bool) (s : string) : string :=
  rstrip_by p (lstrip_by p s).
Definition strip (s : string) : string := strip_by isspace s.
Definition strip_chars (chars s : string) : string :=
  strip_by (fun c => char_in c chars) s.
Definition lstrip_chars (chars s : string) : string :=
  lstrip_by (fun c => char_in c chars) s.

(** [s.split(sep)] for a one-character separator: never the empty list. *)
Fixpoint split (sep : ascii) (s : string) : list string :=
  match s with
  | EmptyString => [EmptyString]
  | String c r =>
      if Ascii.eqb c sep then EmptyString :: split sep r
      else match split sep r with
           | [] => [String c EmptyString]
           | h :: t => String c h :: t
           end
  end.

(** [sep.join(parts)] *)
Definition join (sep : string) (parts : list string) : string :=
  String.concat sep parts.

(** [l[-1]] on a list of strings that is known not to be empty. *)
Definition last_item (l : list string) : string := List.last l EmptyString.

(** [str(i)] for a natural number. *)
Definition str_of_nat (i : nat) : string :=
  NilEmpty.string_of_uint (Nat.to_uint i).

(** Declarative counterparts, used in statements. *)
Fixpoint all_chars (p : ascii -> bool) (s : string) : bool :=
  match s with
  | EmptyString => true
  | String c r => p c && all_chars p r
  end.

Definition first_char (s : string) : option ascii :=
  match s with EmptyString => None | String c _ => Some c end.

Fixpoint last_char (s : string) : option ascii :=
  match s with
  | EmptyString => None
  | String c EmptyString => Some c
  | String _ r => last_char r
  end.

(** [t] is [s] with the longest run of [p]-characters removed at each end. *)
Definition is_stripped (p : ascii -> bool) (s t : string) : Prop :=
  (exists a b, s = a +:+ t +:+ b /\ all_chars p a = true /\ all_chars p b = true) /\
  (forall c, first_char t = Some c -> p c = false) /\
  (forall c, last_char t = Some c -> p c = false).

(** [tok] is the part of [s] after its last [sep], the whole of [s] when
    there is none. *)
Definition is_last_field (sep : ascii) (s tok : string) : Prop :=
  char_in sep tok = false /\
  (s = tok \/ exists pre, s = pre +:+ String sep tok).

(** [ls] are the fields of [s] between the occurrences of [sep]. *)
Definition is_split (sep : ascii) (s : string) (ls : list string) : Prop :=
  s = join (String sep EmptyString) ls /\
  ls <> [] /\
  Forall (fun l => char_in sep l = false) ls.

End PyStr.

(* ===================================================================== *)
(** * generate_cov.py: the coverage script *)
(* ===================================================================== *)

Module GenerateCov.
Import PyStr.

(** An external command: [subprocess.run(text, shell=True)] or
    [subprocess.run(argv)]. *)
Inductive cmd : Type :=
| Shell (line : string)
| Exec (argv : list string).

(** What a finished process hands back ([CompletedProcess]). *)
Record completed : Type := Completed {
  returncode : Z;
  stdout : string;
  stderr : string
}.

(** What the script does to the outside, in order. *)
Inductive event : Type :=
| ERun (c : cmd) (r : completed)
| EPrint (line : string).

(** The outside world answers a command from what happened so far. *)
Definition world : Type := list event -> cmd -> completed.

(** How a run of the script stops early. *)
Inductive stop : Type :=
| CalledProcessError (c : cmd) (rc : Z)
| SystemExit (code : Z).

(** A script step: reads the world, extends the trace, returns or stops. *)
Definition prog (A : Type) : Type := world -> list event -> list event * (stop + A).

#[global] Instance prog_ret : MRet prog := fun A a _ tr => (tr, inr a).
#[global] Instance prog_bind : MBind prog := fun A B k m w tr =>
  match m w tr with
  | (tr', inl s) => (tr', inl s)
  | (tr', inr a) => k a w tr'
  end.

(** [subprocess.run(c, check=check)] *)
Definition subprocess_run (c : cmd) (check : bool) : prog completed :=
  fun w tr =>
    let r := w tr c in
    let tr' := tr ++ [ERun c r] in
    if check && negb (returncode r =? 0)%Z
    then (tr', inl (CalledProcessError c (returncode r)))
    else (tr', inr r).

Definition print (line : string) : prog unit :=
  fun _ tr => (tr ++ [EPrint line], inr tt).

Definition exit {A} (code : Z) : prog A :=
  fun _ tr => (tr, inl (SystemExit code)).

Definition COV_OUT_DIR : string := "target_cov/cov".
Definition TEST_DIR : string := "target_cov".

Definition newline : ascii := "010"%char.
Definition space : ascii := " "%char.

(** Lines 23-24: the executables named in the captured text. *)
Definition binaries (result : string) : list string :=
  let lines := map strip (split newline result) in
  map (fun line => strip_chars ")(" (last_item (split space line)))
      (filter (fun line => startswith line "Executable" = true) lines).

Definition rm_cmd : cmd := Shell ("rm -R " +:+ TEST_DIR).
Definition cargo_test_cmd : cmd :=
  Exec ["cargo"; "test"; "--no-run"; "--target-dir"; TEST_DIR].
Definition kcov_cmd (out binary : string) : cmd :=
  Exec ["kcov"; "--verify"; "--exclude-pattern=/.cargo,/usr/lib"; out; binary].
Definition merge_cmd (dirs_to_merge : list string) : cmd :=
  Exec ("kcov" :: "--merge" :: COV_OUT_DIR :: dirs_to_merge).

(** Lines 34-37: [for i, binary in enumerate(binaries)], from index [i];
    returns [dirs_to_merge]. *)
Fixpoint run_coverage (i : nat) (bins dirs_to_merge : list string) : prog (list string) :=
  match bins with
  | [] => mret dirs_to_merge
  | binary :: rest =>
      let out := COV_OUT_DIR +:+ "_" +:+ str_of_nat i in
      let dirs_to_merge := dirs_to_merge ++ [out] in
      subprocess_run (kcov_cmd out binary) true ;;
      run_coverage (S i) rest dirs_to_merge
  end.

(** The whole script, top to bottom. *)
Definition script : prog unit :=
  subprocess_run rm_cmd false ;;
  print "Generating test binaries, this might take a while..." ;;
  result ← subprocess_run cargo_test_cmd true ;
  let result := stdout result +:+ stderr result in
  let binaries := binaries result in
  print ("Target executables:" +:+ String newline (join (String newline " - ") binaries)) ;;
  (if (length binaries =? 0)%nat
   then print "No executables found, aborting..." ;; exit 1
   else mret tt) ;;
  print "Running coverage..." ;;
  dirs_to_merge ← run_coverage 0 binaries [] ;
  subprocess_run (merge_cmd dirs_to_merge) true ;;
  mret tt.

Definition run (w : world) : list event * (stop + unit) := script w [].

(** The claim's reading of the extraction rule: the last token of the line
    when it is cut at every run of white space. *)
Fixpoint ws_tokens_aux (cur : string) (s : string) : list string :=
  match s with
  | EmptyString => match cur with EmptyString => [] | _ => [cur] end
  | String c r =>
      if isspace c
      then match cur with
           | EmptyString => ws_tokens_aux EmptyString r
           | _ => cur :: ws_tokens_aux EmptyString r
           end
      else ws_tokens_aux (cur +:+ String c EmptyString) r
  end.
Definition ws_tokens (s : string) : list string := ws_tokens_aux EmptyString s.

Definition binaries_by_whitespace (result : string) : list string :=
  let lines := map strip (split newline result) in
  map (fun line => strip_chars ")(" (last_item (ws_tokens line)))
      (filter (fun line => startswith line "Executable" = true) lines).

(** A character that is a space or no white space at all, and a text whose
    only white space is spaces and newlines. *)
Definition plain_space (c : ascii) : bool := negb (isspace c) || Ascii.eqb c space.
Definition spaces_only (text : string) : bool :=
  all_chars (fun c => plain_space c || Ascii.eqb c newline) text.

(** A line and the path the script takes from it. *)
Definition extracted (line path : string) : Prop :=
  exists t tok,
    is_stripped isspace line t /\
    startswith t "Executable" = true /\
    is_last_field space t tok /\
    is_stripped (fun c => char_in c ")(") tok path.

(** The paths taken from a list of lines, line by line: a line that is
    recognized gives its path, any other line gives nothing. *)
Inductive picks : list string -> list string -> Prop :=
| picks_nil : picks [] []
| picks_take line path lines paths :
    extracted line path -> picks lines paths -> picks (line :: lines) (path :: paths)
| picks_skip line lines paths :
    (forall t, is_stripped isspace line t -> startswith t "Executable" = false) ->
    picks lines paths -> picks (line :: lines) paths.

(** A marker line whose fields are set apart by tabs. *)
Definition tabbed_marker : string :=
  "Executable" +:+ String "009"%char ("unittests" +:+
  String "009"%char "(target/debug/deps/foo-abc123)").

(** What the test build prints, markers included. *)
Definition cargo_output : string :=
  "   Compiling yamis v1.0.0 (/work/yamis)" +:+ String newline
  ("    Finished test [unoptimized + debuginfo] target(s) in 4.2s" +:+ String newline
  ("  Executable unittests src/lib.rs (target_cov/debug/deps/yamis-0f3a)" +:+ String newline
  ("  Executable tests/cli.rs (target_cov/debug/deps/cli-77b1)" +:+ String newline ""))).

(** The stop a run ended with, if it did. *)
Definition stopped {A} (out : stop + A) : option stop :=
  match out with inl s => Some s | inr _ => None end.

(** Every command in [evs] that returned a nonzero status is the last event
    and is what the run stopped on. *)
Definition guarded (evs : list event) (o : option stop) : Prop :=
  forall pre c r post,
    evs = pre ++ ERun c r :: post -> returncode r <> 0%Z ->
    post = [] /\ o = Some (CalledProcessError c (returncode r)).

Definition event_ok (e : event) : Prop :=
  match e with ERun _ r => returncode r = 0%Z | EPrint _ => True end.

(** The two steps of line 24 on one line of the text. *)
Definition marker (line : string) : bool := startswith (strip line) "Executable".
Definition path_of (line : string) : string :=
  strip_chars ")(" (last_item (split space (strip line))).

(** Joining a string to the first of a list of fields, and the fields
    that are not empty. *)
Definition glue (cur : string) (parts : list string) : list string :=
  match parts with
  | [] => [cur]
  | h :: t => (cur +:+ h) :: t
  end.

Definition keep_nonempty (l : list string) : list string :=
  List.filter (fun s => negb (String.eqb s "")) l.

(** Worlds for examples: one where the build prints no marker, one where
    the removal and the build fail. *)
Definition quiet_world : world :=
  fun _ _ => Completed 0 "" ("   Compiling yamis v1.0.0" +:+ String newline "    Finished test").

Definition failing_rm_world : world :=
  fun _ c =>
    match c with
    | Shell _ => Completed 1 "" "rm: cannot remove 'target_cov': No such file or directory"
    | Exec _ => Completed 101 "" "error: could not compile"
    end.

Definition is_kcov (e : event) : bool :=
  match e with
  | ERun (Exec (prog :: _)) _ => String.eqb prog "kcov"
  | _ => false
  end.

End GenerateCov.

(* ===================================================================== *)
(** * hashlib.sha256: the hash object the digest computer drives *)
(* ===================================================================== *)

Module Sha256.
Local Open Scope N_scope.

(** 32-bit words are numbers below 2^32; every operation wraps. *)
Definition mask32 : N := 0xFFFFFFFF.
Definition add32 (x y : N) : N := (x + y) mod 2 ^ 32.
Definition rotr (n x : N) : N :=
  N.lor (N.shiftr x n) (N.land (N.shiftl x (32 - n)) mask32).
Definition not32 (x : N) : N := N.lxor x mask32.

Definition Ch (x y z : N) : N := N.lxor (N.land x y) (N.land (not32 x) z).
Definition Maj (x y z : N) : N :=
  N.lxor (N.lxor (N.land x y) (N.land x z)) (N.land y z).
Definition Sigma0 (x : N) : N := N.lxor (N.lxor (rotr 2 x) (rotr 13 x)) (rotr 22 x).
Definition Sigma1 (x : N) : N := N.lxor (N.lxor (rotr 6 x) (rotr 11 x)) (rotr 25 x).
Definition sigma0 (x : N) : N := N.lxor (N.lxor (rotr 7 x) (rotr 18 x)) (N.shiftr x 3).
Definition sigma1 (x : N) : N := N.lxor (N.lxor (rotr 17 x) (rotr 19 x)) (N.shiftr x 10).

(** The constants of FIPS 180-4: the first 32 bits of the fractional parts
    of the cube roots (for [K]) and of the square roots (for [H0]) of the
    first primes. *)
Definition is_prime (p : nat) : bool :=
  forallb (fun d => negb (p mod d =? 0)%nat) (seq 2 (p - 2)).

Definition first_primes (n : nat) : list N :=
  map N.of_nat (take n (List.filter is_prime (seq 2 400))).

(** The largest [r], built bit by bit from [bits] bits down, with
    [r ^ 3 <= n]. *)
Fixpoint cube_root_bits (bits : nat) (r n : N) : N :=
  match bits with
  | O => r
  | S b =>
      let c := r + 2 ^ N.of_nat b in
      cube_root_bits b (if c * c * c <=? n then c else r) n
  end.

Definition K : list N :=
  Eval vm_compute in
    map (fun p => cube_root_bits 40 0 (p * 2 ^ 96) mod 2 ^ 32) (first_primes 64).

Definition H0 : list N :=
  Eval vm_compute in
    map (fun p => N.sqrt (p * 2 ^ 64) mod 2 ^ 32) (first_primes 8).

(** Big-endian words of a block of bytes. *)
Fixpoint words_of_bytes (bs : list byte) : list N :=
  match bs with
  | b0 :: b1 :: b2 :: b3 :: r =>
      (Byte.to_N b0 * 2 ^ 24 + Byte.to_N b1 * 2 ^ 16 + Byte.to_N b2 * 2 ^ 8 + Byte.to_N b3)
      :: words_of_bytes r
  | _ => []
  end.

(** The message schedule: [n] more words after the ones in [w]. *)
Fixpoint schedule (n : nat) (w : list N) : list N :=
  match n with
  | O => w
  | S n' =>
      let t := length w in
      let at_back i := nth (t - i)%nat w 0 in
      schedule n'
        (w ++ [add32 (add32 (sigma1 (at_back 2%nat)) (at_back 7%nat))
                     (add32 (sigma0 (at_back 15%nat)) (at_back 16%nat))])
  end.

Definition round (s : list N) (kw : N * N) : list N :=
  match s with
  | [a; b; c; d; e; f; g; h] =>
      let t1 := add32 (add32 (add32 h (Sigma1 e)) (add32 (Ch e f g) (fst kw))) (snd kw) in
      let t2 := add32 (Sigma0 a) (Maj a b c) in
      [add32 t1 t2; a; b; c; add32 d t1; e; f; g]
  | _ => s
  end.

(** One application of the compression function to a 64-byte block. *)
Definition compress (h : list N) (block : list byte) : list N :=
  let w := schedule 48 (words_of_bytes block) in
  let s := fold_left round (combine K w) h in
  map (fun p => add32 (fst p) (snd p)) (combine h s).

(** The hash object: chaining value, the bytes of the block being filled,
    and the number of bytes taken so far. *)
Record hasher : Type := Hasher {
  chain : list N;
  pending : list byte;
  total : N
}.

(** [hashlib.sha256()] *)
Definition new : hasher := Hasher H0 [] 0.

Definition absorb (st : hasher) (b : byte) : hasher :=
  let buf := pending st ++ [b] in
  if (length buf =? 64)%nat
  then Hasher (compress (chain st) buf) [] (total st + 1)
  else Hasher (chain st) buf (total st + 1).

(** [h.update(data)] *)
Definition update (st : hasher) (data : list byte) : hasher :=
  fold_left absorb data st.

Definition byte_of_N (n : N) : byte :=
  match Byte.of_N (n mod 256) with Some b => b | None => Byte.x00 end.

(** The padding of a message of [len] bytes: 0x80, zeros up to 56 modulo
    64, and the length in bits as a big-endian 64-bit number. *)
Definition padding (len : N) : list byte :=
  let zeros := N.to_nat ((119 - len mod 64) mod 64) in
  let bits := len * 8 in
  Byte.x80 :: repeat Byte.x00 zeros ++
  map (fun i => byte_of_N (N.shiftr bits (8 * (7 - N.of_nat i)))) (seq 0 8).

Definition hex_digit (n : N) : ascii :=
  match String.get (N.to_nat n) "0123456789abcdef" with
  | Some c => c
  | None => "0"%char
  end.

Fixpoint hex_word_aux (digits : nat) (x : N) (acc : string) : string :=
  match digits with
  | O => acc
  | S d => hex_word_aux d (x / 16) (String (hex_digit (x mod 16)) acc)
  end.
Definition hex_word (x : N) : string := hex_word_aux 8 x EmptyString.

(** [h.hexdigest()]: lower-case hexadecimal, 64 characters. *)
Definition hexdigest (st : hasher) : string :=
  let final := fold_left absorb (padding (total st)) st in
  String.concat EmptyString (map hex_word (chain final)).

(** The digest of a whole message given at once. *)
Definition sha256_hex (msg : list byte) : string := hexdigest (update new msg).

Definition is_lower_hex (c : ascii) : bool := PyStr.char_in c "0123456789abcdef".

End Sha256.

(* ===================================================================== *)
(** * os.path, the file system, and the archive writers *)
(* ===================================================================== *)

Module Os.
Import PyStr.

Definition sep : ascii := "/"%char.
Definition is_sep (c : ascii) : bool := Ascii.eqb c sep.
Definition nonempty (s : string) : bool :=
  match s with EmptyString => false | _ => true end.

(** [(p[:i], p[i:])] for [i = p.rfind("/") + 1]. *)
Fixpoint cut_at_last_sep (p : string) : string * string :=
  match p with
  | EmptyString => (EmptyString, EmptyString)
  | String c r =>
      match cut_at_last_sep r with
      | (EmptyString, t) =>
          if is_sep c then (String c EmptyString, t) else (EmptyString, String c t)
      | (h, t) => (String c h, t)
      end
  end.

(** [os.path.split] *)
Definition path_split (p : string) : string * string :=
  let (head, tail) := cut_at_last_sep p in
  (if nonempty head && negb (all_chars is_sep head) then rstrip_by is_sep head else head,
   tail).

(** [os.path.basename], [os.path.dirname] *)
Definition basename (p : string) : string := snd (cut_at_last_sep p).
Definition dirname (p : string) : string := fst (path_split p).

Definition endswith_sep (s : string) : bool :=
  match last_char s with Some c => is_sep c | None => false end.

(** One round of the loop of [os.path.join]. *)
Definition join2 (path b : string) : string :=
  if startswith b "/" then b
  else if negb (nonempty path) || endswith_sep path then path +:+ b
  else path +:+ "/" +:+ b.

(** [os.path.join(a, *p)] *)
Definition path_join (a : string) (p : list string) : string := fold_left join2 p a.

(** One round of the loop of [os.path.normpath] over the components. *)
Definition norm_step (initial_slashes : nat) (new_comps : list string) (comp : string)
  : list string :=
  if String.eqb comp "" || String.eqb comp "." then new_comps
  else if negb (String.eqb comp "..")
          || ((initial_slashes =? 0)%nat && (length new_comps =? 0)%nat)
          || (negb (length new_comps =? 0)%nat && String.eqb (last_item new_comps) "..")
  then new_comps ++ [comp]
  else removelast new_comps.

(** [os.path.normpath] *)
Definition normpath (path : string) : string :=
  if negb (nonempty path) then "."
  else
    let initial_slashes :=
      if startswith path "/"
      then if startswith path "//" && negb (startswith path "///") then 2%nat else 1%nat
      else 0%nat in
    let comps := fold_left (norm_step initial_slashes) (split sep path) [] in
    let path := join "/" comps in
    let path := String.concat "" (repeat "/" initial_slashes) +:+ path in
    if nonempty path then path else ".".

(** ** The file system *)

Inductive node : Type :=
| Dir
| File (data : list byte).

(** Paths are compared as written: the model resolves no ".", ".." or
    doubled separator inside a path, follows no link and has no
    permissions.  As the directory of an entry, the empty name (the working
    directory) and the root always exist. *)
Abbreviation fs := (gmap string node).

Inductive exn : Type :=
| FileNotFoundError (filename : string)
| FileExistsError (filename : string)
| IsADirectoryError (filename : string)
| NotADirectoryError (filename : string)
| IndexError
| CalledProcessError (argv : list string) (rc : Z).

(** A step over a state [S]: the state it leaves, and a value or the
    exception raised. *)
Definition io (S A : Type) : Type := S -> S * (exn + A).

#[global] Instance io_ret {S} : MRet (io S) := fun A a s => (s, inr a).
#[global] Instance io_bind {S} : MBind (io S) := fun A B k m s =>
  match m s with
  | (s', inl e) => (s', inl e)
  | (s', inr a) => k a s'
  end.

Definition raise {S A} (e : exn) : io S A := fun s => (s, inl e).

(** [for x in l: body(x)] *)
Fixpoint for_each {S A} (body : A -> io S unit) (l : list A) : io S unit :=
  match l with
  | [] => mret tt
  | x :: rest => body x ;; for_each body rest
  end.

Definition is_dir_node (n : option node) : bool :=
  match n with Some Dir => true | _ => false end.

(** What the system finds at path [p] ([os.stat]): nothing at the empty
    path, the root at a path of separators only; a path that ends in a
    separator names the entry without the separators, and only when that is
    a directory. *)
Definition stat (f : fs) (p : string) : option node :=
  if negb (nonempty p) then None
  else if all_chars is_sep p then Some Dir
  else if endswith_sep p then
    match f !! rstrip_by is_sep p with
    | Some Dir => Some Dir
    | _ => None
    end
  else f !! p.

(** [os.path.exists], [os.path.isdir] *)
Definition path_exists (f : fs) (p : string) : bool :=
  match stat f p with Some _ => true | None => false end.
Definition path_isdir (f : fs) (p : string) : bool := is_dir_node (stat f p).

(** Why a new entry cannot be made at [p], if so: its directory must be
    there. *)
Definition parent_error (f : fs) (p : string) : option exn :=
  let d := dirname p in
  if all_chars is_sep d then None
  else match f !! d with
       | Some Dir => None
       | Some (File _) => Some (NotADirectoryError p)
       | None => Some (FileNotFoundError p)
       end.

(** [os.mkdir]: the empty path names nothing that could be made, the root
    is there already, and separators at the end of [p] are not part of the
    name of the new directory; the error names [p] as it was given. *)
Definition mkdir (p : string) : io fs unit := fun f =>
  if negb (nonempty p) then (f, inl (FileNotFoundError p))
  else if all_chars is_sep p then (f, inl (FileExistsError p))
  else
    let name := rstrip_by is_sep p in
    match f !! name with
    | Some _ => (f, inl (FileExistsError p))
    | None =>
        match parent_error f name with
        | Some (NotADirectoryError _) => (f, inl (NotADirectoryError p))
        | Some _ => (f, inl (FileNotFoundError p))
        | None => (<[name := Dir]> f, inr tt)
        end
    end.

(** Opening [p] for writing: the file is created, or emptied. *)
Definition open_w (p : string) (initial : list byte) : io fs unit := fun f =>
  match f !! p with
  | Some Dir => (f, inl (IsADirectoryError p))
  | _ =>
      match parent_error f p with
      | Some e => (f, inl e)
      | None => (<[p := File initial]> f, inr tt)
      end
  end.

(** [open(p, "rb")]: the bytes the file object has still to give. *)
Definition open_rb (p : string) : io fs (list byte) := fun f =>
  match f !! p with
  | None => (f, inl (FileNotFoundError p))
  | Some Dir => (f, inl (IsADirectoryError p))
  | Some (File data) => (f, inr data)
  end.

(** [f.write(text)] on the file opened for writing at [p]. *)
Definition file_write (p : string) (text : string) : io fs unit := fun f =>
  match f !! p with
  | Some (File data) => (<[p := File (data ++ String.list_byte_of_string text)]> f, inr tt)
  | _ => (f, inr tt)
  end.

(** The pair [os.makedirs] works on: [os.path.split(name)], taken again on
    the head when the tail is empty. *)
Definition makedirs_target (name : string) : string * string :=
  let (head, tail) := path_split name in
  if nonempty tail then (head, tail) else path_split head.

Definition inspect {A} (a : A) : {b | a = b} := exist _ a eq_refl.

Lemma length_append (a b : string) :
  String.length (a +:+ b) = (String.length a + String.length b)%nat.
Proof. induction a as [|c a IH]; simpl; [reflexivity | now rewrite IH]. Qed.

Lemma cut_at_last_sep_app (p : string) :
  p = fst (cut_at_last_sep p) +:+ snd (cut_at_last_sep p).
Proof.
  induction p as [|c r IH]; simpl; [reflexivity|].
  destruct (cut_at_last_sep r) as [h t]; simpl in IH.
  destruct h as [|d h].
  - destruct (is_sep c); simpl; now rewrite IH.
  - simpl. now rewrite IH.
Qed.

Lemma rstrip_by_length (p : ascii -> bool) (s : string) :
  (String.length (rstrip_by p s) <= String.length s)%nat.
Proof.
  induction s as [|c r IH]; simpl; [lia|].
  destruct (rstrip_by p r); [destruct (p c)|]; simpl in *; lia.
Qed.

Lemma path_split_length (p head tail : string) :
  path_split p = (head, tail) ->
  (String.length head + String.length tail <= String.length p)%nat.
Proof.
  unfold path_split. intros H.
  pose proof (cut_at_last_sep_app p) as Hp.
  destruct (cut_at_last_sep p) as [h t]; simpl in Hp.
  injection H as <- <-.
  rewrite Hp, length_append.
  destruct (nonempty h && negb (all_chars is_sep h)); [|lia].
  pose proof (rstrip_by_length is_sep h). lia.
Qed.

Lemma makedirs_target_shorter (name head tail : string) :
  makedirs_target name = (head, tail) ->
  nonempty tail = true ->
  (String.length head < String.length name)%nat.
Proof.
  unfold makedirs_target. intros H Ht.
  destruct (path_split name) as [h t] eqn:E.
  apply path_split_length in E.
  destruct (nonempty t) eqn:Et.
  - injection H as <- <-. destruct t; [discriminate|simpl in *; lia].
  - apply path_split_length in H. destruct tail; [discriminate|simpl in *; lia].
Qed.

(** The last lines of [os.makedirs]: [mkdir], forgiven when the directory
    is there and [exist_ok] is set. *)
Definition make_last (name : string) (exist_ok : bool) (f : fs) : fs * (exn + unit) :=
  match mkdir name f with
  | (f1, inl e) =>
      if negb exist_ok || negb (path_isdir f1 name) then (f1, inl e) else (f1, inr tt)
  | (f1, inr _) => (f1, inr tt)
  end.

(** [os.makedirs(name, exist_ok=exist_ok)] *)
Equations? makedirs (name : string) (exist_ok : bool) (f : fs) : fs * (exn + unit)
  by wf (String.length name) lt :=
makedirs name exist_ok f with inspect (makedirs_target name) := {
  | exist _ (parent, leaf) Ht with inspect (nonempty leaf) := {
    | exist _ true Hne =>
        if nonempty parent && negb (path_exists f parent) then
          match makedirs parent exist_ok f with
          | (f1, inl (FileExistsError _)) | (f1, inr _) =>
              if String.eqb leaf "." then (f1, inr tt) else make_last name exist_ok f1
          | (f1, inl e) => (f1, inl e)
          end
        else make_last name exist_ok f;
    | exist _ false _ => make_last name exist_ok f } }.
Proof.
  eapply makedirs_target_shorter; eauto.
Qed.

(** ** Archives *)

(** A member of an archive: the name it is stored under and its bytes. *)
Definition member : Type := string * list byte.

(** What lies outside the scripts: the bytes an archive with given members
    has on disk (before and after it is closed), the members the recursive
    walk of [TarFile.add] makes of a directory, and the effect and exit
    status of an external command. *)
Record env : Type := Env {
  zip_image : bool -> list member -> list byte;
  targz_image : bool -> list member -> list byte;
  tar_walk : fs -> string -> string -> list member;
  run_process : list string -> fs -> fs * Z
}.

(** An archive object that is open for writing. *)
Record archive : Type := Archive {
  arc_name : string;
  arc_members : list member
}.

Section Archives.
Context (E : env).

(** The name [ZipInfo.from_file] gives a member. *)
Definition zip_arcname (arcname : string) (isdir : bool) : exn + string :=
  let a := lstrip_chars "/" (normpath arcname) in
  if nonempty a then inr (if isdir then a +:+ "/" else a) else inl IndexError.

(** [zip_file.write(filename, arcname)] *)
Definition zip_write (filename : string) (arcname : option string) : io (fs * archive) unit :=
  fun '(f, a) =>
    match f !! filename with
    | None => ((f, a), inl (FileNotFoundError filename))
    | Some nd =>
        match zip_arcname (default filename arcname) (is_dir_node (Some nd)) with
        | inl e => ((f, a), inl e)
        | inr name =>
            let data := match nd with File d => d | Dir => [] end in
            let a' := Archive (arc_name a) (arc_members a ++ [(name, data)]) in
            ((<[arc_name a := File (zip_image E false (arc_members a'))]> f, a'), inr tt)
        end
    end.

(** [with zipfile.ZipFile(path, "w") as zip_file: body]; leaving the block,
    also by an exception, closes the archive. *)
Definition with_ZipFile (path : string) (body : io (fs * archive) unit) : io fs unit :=
  fun f =>
    match open_w path (zip_image E false []) f with
    | (f1, inl e) => (f1, inl e)
    | (f1, inr _) =>
        let '((f2, a), r) := body (f1, Archive path []) in
        (<[path := File (zip_image E true (arc_members a))]> f2, r)
    end.

(** [tar_file.add(name, arcname)] *)
Definition tar_add (name : string) (arcname : option string) : io (fs * archive) unit :=
  fun '(f, a) =>
    if String.eqb name (arc_name a) then ((f, a), inr tt)
    else
      let arcname := lstrip_chars "/" (default name arcname) in
      match f !! name with
      | None => ((f, a), inl (FileNotFoundError name))
      | Some nd =>
          let added :=
            match nd with
            | File d => [(arcname, d)]
            | Dir => (arcname, []) :: tar_walk E f name arcname
            end in
          let a' := Archive (arc_name a) (arc_members a ++ added) in
          ((<[arc_name a := File (targz_image E false (arc_members a'))]> f, a'), inr tt)
      end.

(** [with tarfile.open(path, "w:gz") as tar_file: body]; an exception in the
    block leaves the archive without its end. *)
Definition with_TarFile (path : string) (body : io (fs * archive) unit) : io fs unit :=
  fun f =>
    match open_w path (targz_image E false []) f with
    | (f1, inl e) => (f1, inl e)
    | (f1, inr _) =>
        let '((f2, a), r) := body (f1, Archive path []) in
        match r with
        | inr _ => (<[path := File (targz_image E true (arc_members a))]> f2, r)
        | inl _ => (f2, r)
        end
    end.

(** [subprocess.run(argv, check=True)] *)
Definition subprocess_run_checked (argv : list string) : io fs unit := fun f =>
  let '(f1, rc) := run_process E argv f in
  if (rc =? 0)%Z then (f1, inr tt) else (f1, inl (CalledProcessError argv rc)).

End Archives.

End Os.

(* ===================================================================== *)
(** * ci_build.py: build, archive and hash one target *)
(* ===================================================================== *)

Module CiBuild.
Import PyStr Os Sha256.

Definition EXTRA_FILES_TO_ZIP : list string := ["README.md"; "LICENSE"; "CHANGELOG.md"].
Definition PKG_NAME : string := "yamis".

(** [for byte_block in iter(lambda: f.read(4096), b""): h.update(byte_block)]
    on a file object that has [rest] still to give. *)
Equations? read_blocks (h : hasher) (rest : list byte) : hasher by wf (length rest) lt :=
read_blocks h rest with inspect (take 4096 rest) := {
  | exist _ [] _ => h;
  | exist _ (b :: blk) Hblk => read_blocks (update h (b :: blk)) (drop 4096 rest) }.
Proof.
  rewrite length_drop. destruct rest; simpl in *; [discriminate|lia].
Qed.

Definition get_sha256_sum (filename : string) : io fs string :=
  let sha256_hash := new in
  f ← open_rb filename ;
  let sha256_hash := read_blocks sha256_hash f in
  mret (hexdigest sha256_hash).

Definition create_hash_file (filepath final_dir : string) : io fs unit :=
  sha256_hash ← get_sha256_sum filepath ;
  let filename := basename filepath in
  let hash_filepath := path_join final_dir [filename +:+ ".sha256"] in
  open_w hash_filepath [] ;;
  file_write hash_filepath sha256_hash ;;
  file_write hash_filepath "  " ;;
  file_write hash_filepath filename.

(** The two decisions [__main__] takes from the target triple (lines 69
    and 73). *)
Inductive archive_format : Type := TarGz | Zip.

Definition archive_format_of (target : string) : archive_format :=
  if contains "linux" target then TarGz else Zip.

Definition bin_name_of (target : string) : string :=
  let bin_name := PKG_NAME in
  if contains "windows" target then bin_name +:+ ".exe" else bin_name.

Definition build_cmd (target_dir target : string) : list string :=
  ["cargo"; "build"; "--release"; "--target"; target; "--target-dir"; target_dir].

(** Lines 65-66: [if not os.path.exists(final_dir): os.mkdir(final_dir)] *)
Definition ensure_dir (final_dir : string) : io fs unit := fun f =>
  if negb (path_exists f final_dir) then mkdir final_dir f else (f, inr tt).

Section WithEnv.
Context (E : env).

Definition zip_files (binary version target final_dir : string) : io fs unit :=
  let zip_name := PKG_NAME +:+ "-" +:+ version +:+ "-" +:+ target +:+ ".zip" in
  let zip_path := path_join final_dir [zip_name] in
  with_ZipFile E zip_path
    (zip_write E binary (Some (basename binary)) ;;
     for_each (fun file => zip_write E file None) EXTRA_FILES_TO_ZIP) ;;
  create_hash_file zip_path final_dir.

Definition tar_files (binary version target final_dir : string) : io fs unit :=
  let tar_name := PKG_NAME +:+ "-" +:+ version +:+ "-" +:+ target +:+ ".tar.gz" in
  let tar_path := path_join final_dir [tar_name] in
  with_TarFile E tar_path
    (tar_add E binary (Some (basename binary)) ;;
     for_each (fun file => tar_add E file None) EXTRA_FILES_TO_ZIP) ;;
  create_hash_file tar_path final_dir.

Definition __main__ (target_dir target version final_dir : string) : io fs unit :=
  subprocess_run_checked E (build_cmd target_dir target) ;;
  ensure_dir final_dir ;;
  let bin_name := bin_name_of target in
  let binary_path := path_join target_dir [target; "release"; bin_name] in
  match archive_format_of target with
  | TarGz => tar_files binary_path version target final_dir
  | Zip => zip_files binary_path version target final_dir
  end.

(** Names for the statements: the two archive writers by format, the bytes
    of a closed or open archive, and the paths the functions compute. *)
Definition archive_files (fmt : archive_format) : string -> string -> string -> string -> io fs unit :=
  match fmt with TarGz => tar_files | Zip => zip_files end.

Definition image_of (fmt : archive_format) : bool -> list member -> list byte :=
  match fmt with TarGz => targz_image E | Zip => zip_image E end.

End WithEnv.

Definition ext_of (fmt : archive_format) : string :=
  match fmt with TarGz => ".tar.gz" | Zip => ".zip" end.

Definition last_of (fmt : archive_format) : ascii :=
  match fmt with TarGz => "z"%char | Zip => "p"%char end.

Definition archive_path_of (fmt : archive_format) (version target final_dir : string) : string :=
  path_join final_dir [PKG_NAME +:+ "-" +:+ version +:+ "-" +:+ target +:+ ext_of fmt].

Definition hash_path_of (filepath final_dir : string) : string :=
  path_join final_dir [basename filepath +:+ ".sha256"].

Definition binary_path_of (target_dir target : string) : string :=
  path_join target_dir [target; "release"; bin_name_of target].

(** The claim's reading of a triple, architecture-vendor-os-abi: its OS
    component is the third of the fields set apart by "-". *)
Definition os_component (triple : string) : option string :=
  split "-" triple !! 2%nat.

End CiBuild.

(* ===================================================================== *)
(** * zip_releases.py: archive the staged binaries of a release *)
(* ===================================================================== *)

Module ZipReleases.
Import PyStr Os.

Definition BASE_BINARIES_PATH : string := "target_releases".
Definition BASE_RELEASE_PATH : string := "releases".

Definition BINARIES : list (string * string) :=
  [("x86_64-apple-darwin", "yamis");
   ("x86_64-pc-windows-gnu", "yamis.exe");
   ("x86_64-unknown-linux-gnu", "yamis")].

Definition EXTRA : list string := ["README.md"; "LICENSE"; "CHANGELOG.MD"].

Section WithEnv.
Context (E : env).

Definition package_binary (version architecture binary : string) : io fs unit :=
  let binary_path :=
    path_join BASE_BINARIES_PATH ["v" +:+ version; architecture; "release"; binary] in
  let zip_dir := path_join BASE_RELEASE_PATH ["v" +:+ version] in
  let zip_name := architecture +:+ "-v" +:+ version +:+ ".zip" in
  makedirs zip_dir true ;;
  with_ZipFile E (path_join zip_dir [zip_name])
    (zip_write E binary_path (Some binary) ;;
     for_each (fun extra => zip_write E extra None) EXTRA).

(** The loop of [main] over a list of targets. *)
Definition package_each (version_to_package : string) (targets : list (string * string))
  : io fs unit :=
  for_each (fun '(arch, binary) => package_binary version_to_package arch binary) targets.

Definition main (argv : list string) : io fs unit :=
  match argv !! 1%nat with
  | None => raise IndexError
  | Some version_to_package => package_each version_to_package BINARIES
  end.

End WithEnv.

(** Names for the statements: the paths [package_binary] computes. *)
Definition staged_binary (version architecture binary : string) : string :=
  path_join BASE_BINARIES_PATH ["v" +:+ version; architecture; "release"; binary].

Definition zip_dir_of (version : string) : string :=
  path_join BASE_RELEASE_PATH ["v" +:+ version].

Definition zip_path_of (version architecture : string) : string :=
  path_join (zip_dir_of version) [architecture +:+ "-v" +:+ version +:+ ".zip"].

End ZipReleases.

(* ===================================================================== *)
(** * Scenarios: file systems and an environment for the examples *)
(* ===================================================================== *)

Module Scenarios.
Import PyStr Os CiBuild ZipReleases.

(** An environment to run examples in: an archive's bytes list the names of
    its members, and external commands succeed and change nothing. *)
Definition listing (tag : string) (closed : bool) (ms : list member) : list byte :=
  String.list_byte_of_string
    (tag +:+ (if closed then ":" else "~") +:+ join "," (map fst ms)).

Definition plain_env : env :=
  Env (listing "zip") (listing "tgz") (fun _ _ _ => []) (fun _ f => (f, 0%Z)).

Definition staged : fs :=
  <["target/x86_64-unknown-linux-gnu/release/yamis" := File (String.list_byte_of_string "ELF")]>
  (<["README.md" := File []]> (<["LICENSE" := File []]> (<["CHANGELOG.md" := File []]>
  (<["dist" := Dir]> ∅)))).

(** One file to hash, and one archive in its directory. *)
Definition abc_file : fs := <["abc.txt" := File (String.list_byte_of_string "abc")]> ∅.

Definition one_archive : fs :=
  <["dist/archive.zip" := File (String.list_byte_of_string "abc")]> (<["dist" := Dir]> ∅).

(** A staged release in which the binary for Windows is missing. *)
Definition staged_release : fs :=
  <["target_releases/v1.0.0/x86_64-apple-darwin/release/yamis" := File []]>
  (<["target_releases/v1.0.0/x86_64-unknown-linux-gnu/release/yamis" := File []]>
  (<["README.md" := File []]> (<["LICENSE" := File []]> (<["CHANGELOG.MD" := File []]> ∅)))).

(** A tree with the binary staged and the changelog under the name the
    release builder uses. *)
Definition lower_case_tree : fs :=
  <["target_releases/v1.0.0/x86_64-apple-darwin/release/yamis" := File []]>
  (<["README.md" := File []]> (<["LICENSE" := File []]> (<["CHANGELOG.md" := File []]> ∅))).

(** C1 as written: when the build leaves no binary at the conventional
    path, the run fails naming that path and neither the archive's path nor
    the hash record's path is written. *)
Definition missing_binary_writes_nothing (E : env)
    (target_dir target version final_dir : string) (f : fs) : Prop :=
  let f1 := fst (run_process E (build_cmd target_dir target) f) in
  let path := archive_path_of (archive_format_of target) version target final_dir in
  let r := __main__ E target_dir target version final_dir f in
  snd (run_process E (build_cmd target_dir target) f) = 0%Z ->
  f1 !! binary_path_of target_dir target = None ->
  snd r = inl (FileNotFoundError (binary_path_of target_dir target)) /\
  fst r !! path = f1 !! path /\
  fst r !! hash_path_of path final_dir = f1 !! hash_path_of path final_dir.

End Scenarios.

(* ===================================================================== *)
(** * Further names for statements about the coverage script *)
(* ===================================================================== *)

Module CovNames.
Import PyStr GenerateCov.

(** Line 35: the output directory of the run with index [i]. *)
Definition out_dir (i : nat) : string := COV_OUT_DIR +:+ "_" +:+ str_of_nat i.

(** The commands of a trace, in the order they were run. *)
Definition commands (tr : list event) : list cmd :=
  flat_map (fun e => match e with ERun c _ => [c] | EPrint _ => [] end) tr.

(** A run of the coverage tool in merge mode. *)
Definition is_merge (e : event) : bool :=
  match e with
  | ERun (Exec (_ :: flag :: _)) _ => String.eqb flag "--merge"
  | _ => false
  end.

(** The executables a list of lines gives, line by line (line 24). *)
Definition from_lines (lines : list string) : list string :=
  flat_map (fun l => if marker l then [path_of l] else []) lines.

(** A world in which every command succeeds and prints what the test
    build prints, two markers included. *)
Definition two_binaries_world : world := fun _ _ => Completed 0 "" cargo_output.

End CovNames.

(* ===================================================================== *)
(** * Further names for statements about the archive writers *)
(* ===================================================================== *)

Module ArchiveNames.
Import PyStr Os CiBuild.

(** A step on an open archive that keeps the archive's name and changes no
    path but the archive's own. *)
Definition framed {A} (m : io (fs * archive) A) : Prop :=
  forall (f : fs) (a : archive),
    arc_name (snd (fst (m (f, a)))) = arc_name a /\
    forall q, q <> arc_name a -> fst (fst (m (f, a))) !! q = f !! q.




Definition is_process_error (e : exn) : bool :=
  match e with CalledProcessError _ _ => true | _ => false end.

(** A step that, when it raises, raises an error of the file system or of
    indexing, not the failure of an external command. *)
Definition quiet {S A} (m : io S A) : Prop :=
  forall (s s' : S) (e : exn), m s = (s', inl e) -> is_process_error e = false.

(** An environment like [plain_env] whose build fails with status 101. *)
Definition failing_build_env : env :=
  Env (Scenarios.listing "zip") (Scenarios.listing "tgz") (fun _ _ _ => [])
      (fun _ f => (f, 101%Z)).

(** The staged tree without README.md. *)
Definition no_readme : fs :=
  <["target/x86_64-unknown-linux-gnu/release/yamis" := File []]>
  (<["LICENSE" := File []]> (<["CHANGELOG.md" := File []]> (<["dist" := Dir]> ∅))).

End ArchiveNames.

(* ===================================================================== *)
(** * Facts about the string operations *)
(* ===================================================================== *)

Module PyStrFacts.
Import PyStr.

Lemma str_app_cons (c : ascii) (a b : string) : String c a +:+ b = String c (a +:+ b).
Proof. reflexivity. Qed.

Lemma str_app_nil_l (a : string) : "" +:+ a = a.
Proof. reflexivity. Qed.

Lemma str_app_nil_r (a : string) : a +:+ "" = a.
Proof. induction a as [|c a IH]; [reflexivity|]. now rewrite str_app_cons, IH. Qed.

Lemma str_app_assoc (a b c : string) : (a +:+ b) +:+ c = a +:+ b +:+ c.
Proof. induction a as [|x a IH]; [reflexivity|]. now rewrite !str_app_cons, IH. Qed.

Lemma eqb_true (a b : ascii) : Ascii.eqb a b = true <-> a = b.
Proof. apply Ascii.eqb_eq. Qed.

Lemma startswith_iff (s p : string) :
  startswith s p = true <-> exists r, s = p +:+ r.
Proof.
  revert s. induction p as [|a p IH]; intros s; simpl.
  - split; [intros _; now exists s | reflexivity].
  - destruct s as [|b s].
    + split; [discriminate | intros [r Hr]; discriminate].
    + destruct (Ascii.eqb a b) eqn:E.
      * apply eqb_true in E as ->. rewrite IH. split.
        -- intros [r ->]. now exists r.
        -- intros [r Hr]. rewrite str_app_cons in Hr. injection Hr as ->. now exists r.
      * split; [discriminate|]. intros [r Hr]. rewrite str_app_cons in Hr.
        injection Hr as <- _. now rewrite Ascii.eqb_refl in E.
Qed.

Lemma contains_iff (sub s : string) :
  contains sub s = true <-> exists a b, s = a +:+ sub +:+ b.
Proof.
  induction s as [|c s IH]; simpl.
  - rewrite orb_false_r, startswith_iff. split.
    + intros [r Hr]. now exists "", r.
    + intros (a & b & H). destruct a; [now exists b|discriminate].
  - rewrite orb_true_iff, startswith_iff, IH. split.
    + intros [[r Hr] | (a & b & ->)].
      * now exists "", r.
      * now exists (String c a), b.
    + intros (a & b & H). destruct a as [|x a].
      * left. now exists b.
      * right. rewrite str_app_cons in H. injection H as _ ->. now exists a, b.
Qed.

(** ** [split] and [join] *)

Lemma split_nonempty (sep : ascii) (s : string) : split sep s <> [].
Proof.
  induction s as [|c s IH]; simpl; [discriminate|].
  destruct (Ascii.eqb c sep); [discriminate|].
  destruct (split sep s); [contradiction | discriminate].
Qed.

Lemma join_cons (sep x : string) (y : string) (l : list string) :
  join sep (x :: y :: l) = x +:+ sep +:+ join sep (y :: l).
Proof. reflexivity. Qed.

Lemma join_split (sep : ascii) (s : string) :
  join (String sep "") (split sep s) = s.
Proof.
  induction s as [|c s IH]; simpl; [reflexivity|].
  pose proof (split_nonempty sep s) as Hne.
  destruct (Ascii.eqb c sep) eqn:E.
  - apply eqb_true in E as ->.
    destruct (split sep s) as [|y l]; [contradiction|].
    rewrite join_cons, IH. reflexivity.
  - destruct (split sep s) as [|y l]; [contradiction|].
    destruct l as [|z l].
    + simpl in *. now rewrite IH.
    + rewrite join_cons in *. rewrite str_app_cons. now rewrite IH.
Qed.

Lemma split_no_sep (sep : ascii) (s : string) :
  Forall (fun l => char_in sep l = false) (split sep s).
Proof.
  induction s as [|c s IH]; simpl.
  - repeat constructor.
  - destruct (Ascii.eqb c sep) eqn:E.
    + constructor; [reflexivity | assumption].
    + destruct (split sep s) as [|y l]; [repeat constructor; simpl|].
      * rewrite Ascii.eqb_sym, E. reflexivity.
      * inversion IH; subst. constructor; [|assumption].
        simpl. now rewrite Ascii.eqb_sym, E.
Qed.

Lemma split_is_split (sep : ascii) (s : string) : is_split sep s (split sep s).
Proof.
  split; [symmetry; apply join_split|].
  split; [apply split_nonempty | apply split_no_sep].
Qed.

Lemma split_app (sep : ascii) (a b : string) :
  split sep (a +:+ String sep b) = split sep a ++ split sep b.
Proof.
  induction a as [|c a IH].
  - rewrite str_app_nil_l. simpl. now rewrite Ascii.eqb_refl.
  - rewrite str_app_cons. simpl. rewrite IH.
    destruct (Ascii.eqb c sep); [reflexivity|].
    pose proof (split_nonempty sep a).
    destruct (split sep a); [contradiction | reflexivity].
Qed.


Lemma join_snoc (sep x : string) (l : list string) :
  l <> [] -> join sep (l ++ [x]) = join sep l +:+ sep +:+ x.
Proof.
  destruct l as [|y l]; [contradiction|]. intros _. revert y.
  induction l as [|z l IH]; intros y; [reflexivity|].
  change (join sep ((y :: z :: l) ++ [x]))
    with (y +:+ sep +:+ join sep ((z :: l) ++ [x])).
  rewrite IH, join_cons, !str_app_assoc. reflexivity.
Qed.

Lemma last_item_cons (x y : string) (l : list string) :
  last_item (x :: y :: l) = last_item (y :: l).
Proof. reflexivity. Qed.

Lemma last_item_snoc (l : list string) (x : string) : last_item (l ++ [x]) = x.
Proof. unfold last_item. apply last_last. Qed.

Lemma split_last_field (sep : ascii) (s : string) :
  is_last_field sep s (last_item (split sep s)).
Proof.
  pose proof (join_split sep s) as J.
  pose proof (split_no_sep sep s) as F.
  destruct (exists_last (split_nonempty sep s)) as (l & tok & E).
  rewrite E in *. rewrite last_item_snoc.
  apply Forall_app in F as [_ F]. inversion F as [|? ? Htok _].
  split; [assumption|].
  destruct l as [|y l]; [now left|]. right.
  rewrite join_snoc in J by discriminate.
  exists (join (String sep "") (y :: l)). now rewrite <- J.
Qed.

Lemma last_char_snoc (pre : string) (c : ascii) :
  last_char (pre +:+ String c "") = Some c.
Proof.
  induction pre as [|d pre IH]; [reflexivity|].
  rewrite str_app_cons. simpl. rewrite IH.
  destruct (pre +:+ String c "") eqn:E; [|reflexivity].
  destruct pre; discriminate E.
Qed.

(** ** Stripping *)

Lemma lstrip_by_spec (p : ascii -> bool) (s : string) :
  (exists a, s = a +:+ lstrip_by p s /\ all_chars p a = true) /\
  (forall c, first_char (lstrip_by p s) = Some c -> p c = false).
Proof.
  induction s as [|c s [(a & Ha & Hp) Hf]]; simpl.
  - split; [now exists "" | discriminate].
  - destruct (p c) eqn:E.
    + split; [|assumption]. exists (String c a). rewrite str_app_cons, <- Ha.
      simpl. now rewrite E, Hp.
    + split; [now exists ""|]. simpl. intros ? [= <-]. assumption.
Qed.

Lemma rstrip_by_spec (p : ascii -> bool) (s : string) :
  (exists b, s = rstrip_by p s +:+ b /\ all_chars p b = true) /\
  (forall c, last_char (rstrip_by p s) = Some c -> p c = false).
Proof.
  induction s as [|c s [(b & Hb & Hp) Hl]]; simpl.
  - split; [now exists "" | discriminate].
  - destruct (rstrip_by p s) as [|d r] eqn:Er.
    + rewrite str_app_nil_l in Hb. subst b. destruct (p c) eqn:E.
      * split; [|discriminate]. exists (String c s). split; [reflexivity|].
        simpl. now rewrite E, Hp.
      * split; [now exists s|]. simpl. intros ? [= <-]. assumption.
    + split; [exists b; now rewrite str_app_cons, <- Hb|].
      intros x Hx. apply Hl. exact Hx.
Qed.

Lemma rstrip_by_first (p : ascii -> bool) (s : string) (c : ascii) :
  first_char (rstrip_by p s) = Some c -> first_char s = Some c.
Proof.
  destruct s as [|d s]; simpl; [discriminate|].
  destruct (rstrip_by p s); [destruct (p d); [discriminate|]|]; simpl; auto.
Qed.

Lemma strip_by_stripped (p : ascii -> bool) (s : string) :
  is_stripped p s (strip_by p s).
Proof.
  unfold strip_by.
  destruct (lstrip_by_spec p s) as [(a & Ha & Hpa) Hf].
  destruct (rstrip_by_spec p (lstrip_by p s)) as [(b & Hb & Hpb) Hl].
  split; [|split].
  - exists a, b. split; [|now split]. rewrite Ha at 1. now rewrite Hb at 1.
  - intros c Hc. apply Hf. eapply rstrip_by_first, Hc.
  - assumption.
Qed.

Lemma lstrip_by_all (p : ascii -> bool) (a s : string) :
  all_chars p a = true -> lstrip_by p (a +:+ s) = lstrip_by p s.
Proof.
  induction a as [|c a IH]; [reflexivity|]. simpl.
  rewrite andb_true_iff. intros [Hc Ha]. rewrite ?str_app_cons. simpl.
  now rewrite Hc, IH.
Qed.

Lemma lstrip_by_fixed (p : ascii -> bool) (s : string) :
  (forall c, first_char s = Some c -> p c = false) -> lstrip_by p s = s.
Proof.
  destruct s as [|c s]; [reflexivity|]. simpl. intros H.
  now rewrite (H c eq_refl).
Qed.

Lemma rstrip_by_all (p : ascii -> bool) (b : string) :
  all_chars p b = true -> rstrip_by p b = "".
Proof.
  induction b as [|c b IH]; [reflexivity|]. simpl.
  rewrite andb_true_iff. intros [Hc Hb]. now rewrite IH, Hc.
Qed.

Lemma rstrip_by_app (p : ascii -> bool) (t b : string) :
  all_chars p b = true ->
  (forall c, last_char t = Some c -> p c = false) ->
  rstrip_by p (t +:+ b) = t.
Proof.
  intros Hb. induction t as [|c t IH]; intros Hl.
  - rewrite str_app_nil_l. now apply rstrip_by_all.
  - rewrite ?str_app_cons. simpl. destruct t as [|d t].
    + rewrite ?str_app_nil_l, rstrip_by_all by assumption.
      now rewrite (Hl c eq_refl).
    + rewrite IH; [reflexivity|]. intros x Hx. apply Hl. exact Hx.
Qed.

Lemma stripped_unique (p : ascii -> bool) (s t : string) :
  is_stripped p s t -> t = strip_by p s.
Proof.
  intros [(a & b & -> & Ha & Hb) [Hf Hl]]. unfold strip_by.
  rewrite lstrip_by_all by assumption.
  destruct t as [|c t].
  - rewrite str_app_nil_l.
    destruct (lstrip_by_spec p b) as [(a' & Ha' & _) _].
    assert (Hn : lstrip_by p b = "").
    { rewrite <- (str_app_nil_r b), lstrip_by_all by assumption. reflexivity. }
    now rewrite Hn.
  - rewrite lstrip_by_fixed.
    + symmetry. now apply rstrip_by_app.
    + rewrite ?str_app_cons. simpl. intros ? [= <-]. now apply Hf.
Qed.

End PyStrFacts.

(* ===================================================================== *)
(** * The coverage script: discovery and failure handling *)
(* ===================================================================== *)

Module GenerateCovFacts.
Import PyStr PyStrFacts GenerateCov.

Lemma binaries_of_lines (lines : list string) :
  map (fun line => strip_chars ")(" (last_item (split space line)))
      (filter (fun line => startswith line "Executable" = true) (map strip lines))
  = flat_map (fun l => if marker l then [path_of l] else []) lines.
Proof.
  induction lines as [|l lines IH]; [reflexivity|].
  cbn [map flat_map]. rewrite filter_cons. unfold marker at 1.
  destruct (decide (startswith (strip l) "Executable" = true)) as [H|H].
  - rewrite H. cbn [map]. now rewrite IH.
  - apply not_true_is_false in H. now rewrite H, IH.
Qed.

Lemma binaries_flat (text : string) :
  binaries text = flat_map (fun l => if marker l then [path_of l] else []) (split newline text).
Proof. apply binaries_of_lines. Qed.

Lemma extracted_path_of (line : string) :
  marker line = true -> extracted line (path_of line).
Proof.
  intros H. exists (strip line), (last_item (split space (strip line))).
  split; [apply strip_by_stripped|]. split; [exact H|].
  split; [apply split_last_field | apply strip_by_stripped].
Qed.

Lemma picks_flat (lines : list string) :
  picks lines (flat_map (fun l => if marker l then [path_of l] else []) lines).
Proof.
  induction lines as [|l lines IH]; [constructor|].
  cbn [flat_map]. destruct (marker l) eqn:E.
  - apply picks_take; [now apply extracted_path_of | exact IH].
  - apply picks_skip; [|exact IH].
    intros t Ht. apply stripped_unique in Ht. subst t. exact E.
Qed.

Lemma binaries_app (a b : string) :
  binaries (a +:+ String newline b) = binaries a ++ binaries b.
Proof. rewrite !binaries_flat, split_app. apply flat_map_app. Qed.

Lemma binaries_nil (text : string) :
  Forall (fun line => startswith (strip line) "Executable" = false) (split newline text) ->
  binaries text = [].
Proof.
  rewrite binaries_flat. generalize (split newline text). intros lines F.
  induction F as [|l ls H _ IH]; [reflexivity|].
  cbn [flat_map]. unfold marker at 1. now rewrite H, IH.
Qed.

(** ** Where cutting at spaces and cutting at white space agree *)

Lemma isspace_space : isspace space = true.
Proof. reflexivity. Qed.

Lemma ws_tokens_aux_split (s : string) :
  all_chars plain_space s = true ->
  forall cur, ws_tokens_aux cur s = keep_nonempty (glue cur (split space s)).
Proof.
  induction s as [|c s IH]; intros Hs cur.
  - simpl. rewrite str_app_nil_r. now destruct cur.
  - simpl in Hs. apply andb_true_iff in Hs as [Hc Hs]. specialize (IH Hs).
    cbn [ws_tokens_aux split]. pose proof (split_nonempty space s) as Hne.
    destruct (Ascii.eqb c space) eqn:E.
    + apply eqb_true in E as ->. rewrite isspace_space.
      cbn [glue]. rewrite str_app_nil_r, (IH "").
      destruct (split space s) as [|h t]; [contradiction|]. cbn [glue].
      rewrite str_app_nil_l. now destruct cur.
    + unfold plain_space in Hc. rewrite E, orb_false_r in Hc.
      apply negb_true_iff in Hc. rewrite Hc, IH.
      destruct (split space s) as [|h t]; [contradiction|]. cbn [glue].
      now rewrite str_app_assoc.
Qed.

Lemma last_item_keep (l : list string) :
  last_item l <> "" -> last_item (keep_nonempty l) = last_item l.
Proof.
  induction l as [|x l IH]; [reflexivity|]. intros H. destruct l as [|y l].
  - unfold last_item in H. simpl in H. unfold keep_nonempty. simpl.
    apply String.eqb_neq in H. now rewrite H.
  - rewrite last_item_cons in *. specialize (IH H).
    unfold keep_nonempty in *. cbn [List.filter] in *.
    destruct (negb (String.eqb x "")); [|exact IH].
    destruct (negb (String.eqb y "")) eqn:Ey.
    + rewrite last_item_cons. exact IH.
    + destruct (List.filter _ l) as [|z l'] eqn:El.
      * exfalso. apply H. now rewrite <- IH.
      * rewrite last_item_cons. exact IH.
Qed.

Lemma all_chars_lstrip (q p : ascii -> bool) (s : string) :
  all_chars q s = true -> all_chars q (lstrip_by p s) = true.
Proof.
  induction s as [|c s IH]; [reflexivity|]. intros H. simpl.
  destruct (p c); [|exact H]. simpl in H. apply andb_true_iff in H as [_ H]. auto.
Qed.

Lemma all_chars_rstrip (q p : ascii -> bool) (s : string) :
  all_chars q s = true -> all_chars q (rstrip_by p s) = true.
Proof.
  induction s as [|c s IH]; [reflexivity|]. intros H. simpl in *.
  apply andb_true_iff in H as [Hc H]. specialize (IH H).
  destruct (rstrip_by p s); [destruct (p c); [reflexivity|]|]; simpl in *;
    now rewrite Hc.
Qed.

Lemma split_lines_plain (text : string) :
  spaces_only text = true ->
  Forall (fun l => all_chars plain_space l = true) (split newline text).
Proof.
  unfold spaces_only. induction text as [|c s IH]; intros H.
  - repeat constructor.
  - simpl in H. apply andb_true_iff in H as [Hc H]. specialize (IH H). simpl.
    destruct (Ascii.eqb c newline) eqn:E.
    + constructor; [reflexivity | exact IH].
    + rewrite orb_false_r in Hc. inversion IH as [|h t Hh Ht Heq].
      * constructor; [simpl; now rewrite Hc | constructor].
      * constructor; [simpl; now rewrite Hc | exact Ht].
Qed.

(** On a trimmed marker line without tabs and the like, the last field cut
    at spaces is the last token cut at white space. *)
Lemma last_field_is_last_token (line : string) :
  all_chars plain_space line = true ->
  marker line = true ->
  last_item (ws_tokens (strip line)) = last_item (split space (strip line)).
Proof.
  intros Hp Hm. unfold ws_tokens.
  assert (Hs : all_chars plain_space (strip line) = true).
  { unfold strip, strip_by. now apply all_chars_rstrip, all_chars_lstrip. }
  rewrite (ws_tokens_aux_split _ Hs "").
  pose proof (split_nonempty space (strip line)) as Hne.
  replace (glue "" (split space (strip line))) with (split space (strip line))
    by (destruct (split space (strip line)); [contradiction | reflexivity]).
  apply last_item_keep. intros Hlast.
  destruct (split_last_field space (strip line)) as [_ Hor]. rewrite Hlast in Hor.
  destruct (strip_by_stripped isspace line) as (_ & _ & Hl). fold (strip line) in Hl.
  unfold marker in Hm. destruct Hor as [He | [pre He]].
  - rewrite He in Hm. discriminate Hm.
  - specialize (Hl space). rewrite He in Hl.
    rewrite last_char_snoc in Hl. specialize (Hl eq_refl). discriminate Hl.
Qed.

Lemma binaries_agree (text : string) :
  spaces_only text = true -> binaries text = binaries_by_whitespace text.
Proof.
  intros H. apply split_lines_plain in H. rewrite binaries_flat.
  unfold binaries_by_whitespace. revert H. generalize (split newline text).
  intros lines F. induction F as [|l ls Hl _ IH]; [reflexivity|].
  cbn [flat_map map]. rewrite filter_cons.
  destruct (decide (startswith (strip l) "Executable" = true)) as [Hm|Hm].
  - unfold marker at 1. rewrite Hm. cbn [map app]. rewrite IH.
    unfold path_of. now rewrite last_field_is_last_token.
  - apply not_true_is_false in Hm. unfold marker at 1. now rewrite Hm, IH.
Qed.

(** ** Traces *)

Lemma guarded_nil (o : option stop) : guarded [] o.
Proof. intros [|? ?] c r post H; discriminate H. Qed.

Lemma guarded_cons_ok (e : event) (evs : list event) (o : option stop) :
  event_ok e -> guarded evs o -> guarded (e :: evs) o.
Proof.
  intros He G [|e' pre] c r post H Hr.
  - injection H as -> _. simpl in He. contradiction.
  - injection H as _ H. eapply G; eauto.
Qed.

Lemma guarded_fail (c : cmd) (r : completed) :
  guarded [ERun c r] (Some (CalledProcessError c (returncode r))).
Proof.
  intros [|e' pre] c' r' post H Hr.
  - injection H as <- <- <-. now split.
  - injection H as _ H. destruct pre; discriminate H.
Qed.

Lemma guarded_app_ok (evs1 evs2 : list event) (o : option stop) :
  Forall event_ok evs1 -> guarded evs2 o -> guarded (evs1 ++ evs2) o.
Proof.
  induction 1 as [|e evs1 He _ IH]; intros G; [exact G|].
  apply guarded_cons_ok; auto.
Qed.

Lemma subprocess_run_checked_cases (c : cmd) (w : world) (tr : list event) :
  let r := w tr c in
  (returncode r = 0%Z /\ subprocess_run c true w tr = (tr ++ [ERun c r], inr r)) \/
  (returncode r <> 0%Z /\
   subprocess_run c true w tr = (tr ++ [ERun c r], inl (CalledProcessError c (returncode r)))).
Proof.
  unfold subprocess_run. simpl. destruct (Z.eqb_spec (returncode (w tr c)) 0) as [H|H].
  - left. now rewrite ?H.
  - right. now split.
Qed.

(** The coverage loop adds commands that all succeeded, or stops on the
    one that failed. *)
Lemma run_coverage_trace (bins : list string) :
  forall (i : nat) (dirs : list string) (w : world) (tr : list event),
  exists evs, fst (run_coverage i bins dirs w tr) = tr ++ evs /\
    ((Forall event_ok evs /\ stopped (snd (run_coverage i bins dirs w tr)) = None) \/
     (guarded evs (stopped (snd (run_coverage i bins dirs w tr))) /\
      stopped (snd (run_coverage i bins dirs w tr)) <> None)).
Proof.
  induction bins as [|b bins IH]; intros i dirs w tr.
  - exists []. simpl. rewrite app_nil_r. split; [reflexivity|]. left. now split.
  - cbn [run_coverage]. unfold mbind, prog_bind.
    set (c := kcov_cmd _ b).
    destruct (subprocess_run_checked_cases c w tr) as [[Hr ->] | [Hr ->]].
    + destruct (IH (S i) (dirs ++ [COV_OUT_DIR +:+ "_" +:+ str_of_nat i]) w
                   (tr ++ [ERun c (w tr c)])) as (evs & Hevs & Hcase).
      exists (ERun c (w tr c) :: evs). rewrite Hevs, <- List.app_assoc.
      split; [reflexivity|].
      destruct Hcase as [[Hok Hs] | [Hg Hs]].
      * left. split; [constructor; assumption | assumption].
      * right. split; [apply guarded_cons_ok; assumption | assumption].
    + exists [ERun c (w tr c)]. split; [reflexivity|]. right.
      split; [apply guarded_fail | discriminate].
Qed.

(** The script from its second step on. *)
Lemma script_trace (w : world) :
  let r0 := w [] rm_cmd in
  let said := EPrint "Generating test binaries, this might take a while..." in
  exists rest,
    fst (run w) = ERun rm_cmd r0 :: said ::
                  ERun cargo_test_cmd (w [ERun rm_cmd r0; said] cargo_test_cmd) :: rest /\
    guarded (said :: ERun cargo_test_cmd (w [ERun rm_cmd r0; said] cargo_test_cmd) :: rest)
            (stopped (snd (run w))).
Proof.
  intros r0 said. subst r0 said.
  remember (run w) as res eqn:E.
  unfold run, script, mbind, prog_bind in E.
  unfold subprocess_run at 1 in E. cbn [andb app] in E. unfold print at 1 in E.
  cbn [app] in E.
  set (tr2 := [ERun rm_cmd (w [] rm_cmd); EPrint _]) in E.
  destruct (subprocess_run_checked_cases cargo_test_cmd w tr2) as [[Hr Hc] | [Hr Hc]];
    rewrite Hc in E; clear Hc.
  2:{ subst res. eexists. split; [reflexivity|].
      apply guarded_cons_ok; [exact I|]. apply guarded_fail. }
  set (r := w tr2 cargo_test_cmd) in *.
  unfold print at 1 in E.
  destruct (binaries (stdout r +:+ stderr r)) as [|b bins] eqn:Eb.
  - cbn in E. subst res. eexists. split; [reflexivity|].
    repeat (apply guarded_cons_ok; [assumption || exact I|]). apply guarded_nil.
  - cbn [length Nat.eqb] in E. unfold mret, prog_ret, print at 1 in E.
    match type of E with context [run_coverage 0 ?bs [] w ?t] =>
      destruct (run_coverage_trace bs 0 [] w t) as (evs & Hevs & Hcase);
      destruct (run_coverage 0 bs [] w t) as [tr' out] eqn:Erun
    end.
    cbn [fst snd] in *. subst tr'.
    destruct Hcase as [[Hok Hs] | [Hg Hs]].
    + destruct out as [s|dirs]; [discriminate Hs|].
      match type of E with context [subprocess_run ?c true w ?t] =>
        destruct (subprocess_run_checked_cases c w t) as [[Hm Hc] | [Hm Hc]];
          rewrite Hc in E; clear Hc
      end.
      * subst res. eexists. split; [cbn; reflexivity|]. cbn [snd stopped].
        repeat (apply guarded_cons_ok; [assumption || exact I|]).
        apply guarded_app_ok; [assumption|].
        apply guarded_cons_ok; [assumption | apply guarded_nil].
      * subst res. eexists. split; [cbn; reflexivity|]. cbn [snd stopped].
        repeat (apply guarded_cons_ok; [assumption || exact I|]).
        apply guarded_app_ok; [assumption|]. apply guarded_fail.
    + destruct out as [s|dirs]; [|now destruct Hs].
      subst res. eexists. split; [cbn; reflexivity|]. cbn [snd stopped] in *.
      repeat (apply guarded_cons_ok; [assumption || exact I|]).
      exact Hg.
Qed.

End GenerateCovFacts.

Module CovSpec.
Import PyStr PyStrFacts GenerateCov GenerateCovFacts.

(** C3, as written, fails: on a marker line whose fields are set apart by
    tabs the script does not return the last white-space separated token. *)
Lemma binaries_tabbed_marker_differs :
  binaries tabbed_marker =
    ["Executable" +:+ String "009"%char ("unittests" +:+
      String "009"%char "(target/debug/deps/foo-abc123")] /\
  binaries_by_whitespace tabbed_marker = ["target/debug/deps/foo-abc123"] /\
  binaries tabbed_marker <> binaries_by_whitespace tabbed_marker.
Proof. vm_compute. repeat split. discriminate. Qed.

(** C3, amended: the captured text is cut into lines at every newline; a
    line is recognized exactly when, with the white space at its ends
    removed, it begins with "Executable"; each recognized line gives, in the
    order of the lines, the field after its last space character (U+0020;
    the whole line when it has none) with the parentheses at its ends
    removed.  That field is the last white-space separated token whenever
    the text has no white space other than spaces and newlines.  A text
    holding the line "Executable unittests (target/debug/deps/foo-abc123)"
    gives "target/debug/deps/foo-abc123" at that place. *)
Theorem binaries_last_space_field (text before after : string) :
  (exists lines, is_split newline text lines /\ picks lines (binaries text)) /\
  (spaces_only text = true -> binaries text = binaries_by_whitespace text) /\
  binaries (before +:+ String newline
             ("Executable unittests (target/debug/deps/foo-abc123)" +:+
              String newline after))
  = binaries before ++ "target/debug/deps/foo-abc123" :: binaries after.
Proof.
  split; [|split].
  - exists (split newline text). split; [apply split_is_split|].
    rewrite binaries_flat. apply picks_flat.
  - apply binaries_agree.
  - rewrite !binaries_app. reflexivity.
Qed.

Lemma binaries_last_space_field_witness :
  binaries_by_whitespace cargo_output =
    ["target_cov/debug/deps/yamis-0f3a"; "target_cov/debug/deps/cli-77b1"].
Proof.
  destruct (binaries_last_space_field cargo_output "" "") as (_ & H & _).
  rewrite <- H; reflexivity.
Defined.

(** C7: when the test build succeeds and no line of its captured output
    starts, once trimmed, with "Executable", the script prints
    "No executables found, aborting..." and exits with status 1, and no kcov
    command (neither a per-binary run nor the merge) is ever run. *)
Theorem no_executables_aborts (w : world) :
  let tr2 := [ERun rm_cmd (w [] rm_cmd);
              EPrint "Generating test binaries, this might take a while..."] in
  let r := w tr2 cargo_test_cmd in
  returncode r = 0%Z ->
  Forall (fun line => startswith (strip line) "Executable" = false)
         (split newline (stdout r +:+ stderr r)) ->
  run w = (tr2 ++ [ERun cargo_test_cmd r;
                   EPrint ("Target executables:" +:+ String newline "");
                   EPrint "No executables found, aborting..."],
           inl (SystemExit 1)) /\
  Forall (fun e => is_kcov e = false) (fst (run w)).
Proof.
  intros tr2 r Hr Hno.
  assert (E : run w = (tr2 ++ [ERun cargo_test_cmd r;
                   EPrint ("Target executables:" +:+ String newline "");
                   EPrint "No executables found, aborting..."],
           inl (SystemExit 1))).
  { unfold run, script, mbind, prog_bind.
    unfold subprocess_run at 1. cbn [andb app]. unfold print at 1. cbn [app].
    fold tr2.
    destruct (subprocess_run_checked_cases cargo_test_cmd w tr2) as [[_ Hc] | [Hn _]];
      [|contradiction].
    rewrite Hc. fold r. rewrite (binaries_nil _ Hno). reflexivity. }
  split; [exact E|]. rewrite E. repeat constructor.
Qed.

Lemma no_executables_aborts_witness :
  snd (run quiet_world) = inl (SystemExit 1) /\
  Forall (fun e => is_kcov e = false) (fst (run quiet_world)).
Proof.
  destruct (no_executables_aborts quiet_world) as [E F].
  - reflexivity.
  - vm_compute. repeat constructor.
  - split; [now rewrite E | exact F].
Defined.

(** C10: the removal of the work directory is run unchecked: whatever its
    exit status, the script goes on to print and to run the test build;
    every later command that returns a nonzero status is the last thing the
    script does and ends it with CalledProcessError. *)
Theorem removal_unchecked_rest_checked (w : world) :
  (exists rest,
     fst (run w) =
       ERun rm_cmd (w [] rm_cmd) ::
       EPrint "Generating test binaries, this might take a while..." ::
       ERun cargo_test_cmd
         (w [ERun rm_cmd (w [] rm_cmd);
             EPrint "Generating test binaries, this might take a while..."]
            cargo_test_cmd) :: rest) /\
  (forall pre c r post,
     fst (run w) = pre ++ ERun c r :: post -> pre <> [] -> returncode r <> 0%Z ->
     post = [] /\ snd (run w) = inl (CalledProcessError c (returncode r))).
Proof.
  destruct (script_trace w) as (rest & Htr & G). split.
  - now exists rest.
  - intros pre c r post E Hpre Hr.
    rewrite Htr in E. destruct pre as [|e pre]; [contradiction|].
    injection E as _ E. destruct (G pre c r post E Hr) as [-> Hs].
    split; [reflexivity|]. destruct (snd (run w)); [|discriminate Hs].
    simpl in Hs. now injection Hs as ->.
Qed.

Lemma removal_unchecked_rest_checked_witness :
  snd (run failing_rm_world) =
    inl (CalledProcessError cargo_test_cmd 101).
Proof.
  destruct (removal_unchecked_rest_checked failing_rm_world) as [_ H].
  apply (H [ERun rm_cmd (failing_rm_world [] rm_cmd);
            EPrint "Generating test binaries, this might take a while..."]
           cargo_test_cmd (Completed 101 "" "error: could not compile") []).
  - reflexivity.
  - discriminate.
  - discriminate.
Defined.

End CovSpec.

(* ===================================================================== *)
(** * Facts about paths and the file system *)
(* ===================================================================== *)

Module OsFacts.
Import PyStr PyStrFacts Os.

#[local] Arguments Ascii.eqb : simpl never.

Lemma bind_ok {S A B} (m : io S A) (k : A -> io S B) (s s' : S) (a : A) :
  m s = (s', inr a) -> (m ≫= k) s = k a s'.
Proof. intros H. unfold mbind, io_bind. now rewrite H. Qed.

Lemma bind_raise {S A B} (m : io S A) (k : A -> io S B) (s s' : S) (e : exn) :
  m s = (s', inl e) -> (m ≫= k) s = (s', inl e).
Proof. intros H. unfold mbind, io_bind. now rewrite H. Qed.

Lemma char_in_app (c : ascii) (a b : string) :
  char_in c (a +:+ b) = char_in c a || char_in c b.
Proof.
  induction a as [|x a IH]; [reflexivity|].
  rewrite str_app_cons. simpl. now rewrite IH, orb_assoc.
Qed.

Lemma last_char_app (a b : string) :
  b <> "" -> last_char (a +:+ b) = last_char b.
Proof.
  intros Hb. induction a as [|c a IH]; [reflexivity|].
  rewrite str_app_cons. simpl. rewrite IH.
  destruct (a +:+ b) eqn:E; [|reflexivity].
  destruct a; [rewrite str_app_nil_l in E; contradiction | discriminate E].
Qed.

Lemma startswith_sep_false (b : string) :
  char_in sep b = false -> startswith b "/" = false.
Proof.
  destruct b as [|c b]; [reflexivity|]. simpl.
  rewrite orb_false_iff. intros [H _]. fold sep. now rewrite H.
Qed.

Lemma join2_last (a b : string) : b <> "" -> last_char (join2 a b) = last_char b.
Proof.
  intros Hb. unfold join2. destruct (startswith b "/"); [reflexivity|].
  destruct (negb (nonempty a) || endswith_sep a).
  - now apply last_char_app.
  - rewrite last_char_app; [now apply (last_char_app "/")|].
    destruct b; [contradiction | discriminate].
Qed.

Lemma path_join_snoc (a : string) (l : list string) (b : string) :
  path_join a (l ++ [b]) = join2 (path_join a l) b.
Proof. unfold path_join. now rewrite fold_left_app. Qed.

Lemma path_join_last (a : string) (l : list string) (b : string) :
  b <> "" -> last_char (path_join a (l ++ [b])) = last_char b.
Proof. intros Hb. rewrite path_join_snoc. now apply join2_last. Qed.

Lemma basename_no_sep (p : string) : char_in sep (basename p) = false.
Proof.
  unfold basename. induction p as [|c p IH]; [reflexivity|]. simpl.
  destruct (cut_at_last_sep p) as [h t]. simpl in IH.
  destruct h as [|d h]; [|exact IH].
  destruct (is_sep c) eqn:E; [exact IH|]. simpl.
  unfold is_sep in E. now rewrite Ascii.eqb_sym, E.
Qed.

Lemma cut_no_sep (n : string) :
  char_in sep n = false -> cut_at_last_sep n = ("", n).
Proof.
  induction n as [|c n IH]; [reflexivity|]. simpl.
  rewrite orb_false_iff. intros [Hc Hn]. rewrite (IH Hn).
  unfold is_sep. now rewrite Ascii.eqb_sym, Hc.
Qed.

Lemma cut_app_sep (a n : string) :
  char_in sep n = false -> endswith_sep a = true ->
  cut_at_last_sep (a +:+ n) = (a, n).
Proof.
  intros Hn. induction a as [|c a IH]; [discriminate|]. intros Ha.
  rewrite str_app_cons. simpl. destruct a as [|d a].
  - rewrite str_app_nil_l, (cut_no_sep _ Hn).
    unfold endswith_sep in Ha. simpl in Ha. now rewrite Ha.
  - rewrite IH; [reflexivity|]. exact Ha.
Qed.

Lemma basename_join2 (a b : string) :
  char_in sep b = false -> basename (join2 a b) = b.
Proof.
  intros Hb. unfold join2, basename. rewrite (startswith_sep_false _ Hb).
  destruct a as [|c a].
  - simpl. rewrite str_app_nil_l. now rewrite cut_no_sep.
  - cbn [nonempty negb orb]. destruct (endswith_sep (String c a)) eqn:E.
    + now rewrite cut_app_sep.
    + rewrite <- str_app_assoc. rewrite cut_app_sep; [reflexivity | exact Hb |].
      unfold endswith_sep. now rewrite last_char_app.
Qed.




End OsFacts.

(* ===================================================================== *)
(** * The digest computer *)
(* ===================================================================== *)

Module DigestFacts.
Import PyStr PyStrFacts Os Sha256 CiBuild.

Lemma update_app (h : hasher) (a b : list byte) :
  update (update h a) b = update h (a ++ b).
Proof. unfold update. now rewrite fold_left_app. Qed.

Lemma read_blocks_update (h : hasher) (rest : list byte) :
  read_blocks h rest = update h rest.
Proof.
  funelim (read_blocks h rest).
  - destruct rest; [reflexivity | discriminate].
  - rewrite H, <- Hblk, update_app, take_drop. reflexivity.
Qed.

Lemma get_sha256_sum_ok (f : fs) (filename : string) (data : list byte) :
  f !! filename = Some (File data) ->
  get_sha256_sum filename f = (f, inr (sha256_hex data)).
Proof.
  intros H. unfold get_sha256_sum, mbind, io_bind, open_rb. rewrite H.
  unfold mret, io_ret. now rewrite read_blocks_update.
Qed.


Lemma update_blocks (blocks : list (list byte)) (h : hasher) :
  fold_left update blocks h = update h (List.concat blocks).
Proof.
  revert h. induction blocks as [|b blocks IH]; intros h; [reflexivity|].
  simpl. now rewrite IH, update_app.
Qed.

Lemma round_length (s : list N) (kw : N * N) : length (round s kw) = length s.
Proof.
  unfold round. do 9 (destruct s as [|? s]; [reflexivity|]). reflexivity.
Qed.

Lemma rounds_length (kws : list (N * N)) (s : list N) :
  length (fold_left round kws s) = length s.
Proof.
  revert s. induction kws as [|kw kws IH]; intros s; [reflexivity|].
  simpl. now rewrite IH, round_length.
Qed.

Lemma compress_length (h : list N) (block : list byte) :
  length (compress h block) = length h.
Proof.
  unfold compress. rewrite length_map, length_combine, rounds_length. lia.
Qed.

Lemma absorb_chain_length (st : hasher) (b : byte) :
  length (chain (absorb st b)) = length (chain st).
Proof.
  unfold absorb. destruct (length (pending st ++ [b]) =? 64)%nat; simpl;
    [apply compress_length | reflexivity].
Qed.

Lemma update_chain_length (data : list byte) (st : hasher) :
  length (chain (update st data)) = length (chain st).
Proof.
  revert st. induction data as [|b data IH]; intros st; [reflexivity|].
  unfold update in *. simpl. now rewrite IH, absorb_chain_length.
Qed.

Lemma hex_digit_lower (n : N) : is_lower_hex (hex_digit n) = true.
Proof.
  unfold hex_digit. generalize (N.to_nat n). intros m.
  do 16 (destruct m as [|m]; [reflexivity|]). reflexivity.
Qed.

Lemma hex_word_aux_spec (digits : nat) (x : N) (acc : string) :
  String.length (hex_word_aux digits x acc) = (digits + String.length acc)%nat /\
  (all_chars is_lower_hex acc = true ->
   all_chars is_lower_hex (hex_word_aux digits x acc) = true).
Proof.
  revert x acc. induction digits as [|d IH]; intros x acc; [now split|].
  simpl. destruct (IH (x / 16)%N (String (hex_digit (x mod 16)) acc)) as [L A].
  split; [rewrite L; simpl; lia|].
  intros Hacc. apply A. simpl. now rewrite hex_digit_lower.
Qed.

Lemma hex_words_spec (ws : list N) :
  String.length (String.concat "" (map hex_word ws)) = (8 * length ws)%nat /\
  all_chars is_lower_hex (String.concat "" (map hex_word ws)) = true.
Proof.
  assert (all_app : forall a b, all_chars is_lower_hex a = true ->
            all_chars is_lower_hex b = true -> all_chars is_lower_hex (a +:+ b) = true).
  { induction a as [|c a IH]; intros b Ha Hb; [exact Hb|].
    simpl in *. apply andb_true_iff in Ha as [-> Ha]. now apply IH. }
  induction ws as [|w ws [L A]]; [now split|].
  destruct (hex_word_aux_spec 8 w "") as [Lw Aw]. specialize (Aw eq_refl).
  fold (hex_word w) in Lw, Aw.
  destruct ws as [|w' ws].
  - change (String.concat "" (map hex_word [w])) with (hex_word w).
    split; [rewrite Lw; reflexivity | exact Aw].
  - change (String.concat "" (map hex_word (w :: w' :: ws)))
      with (hex_word w +:+ "" +:+ String.concat "" (map hex_word (w' :: ws))).
    rewrite str_app_nil_l. split.
    + rewrite length_append, Lw, L. cbn [length String.length]. lia.
    + now apply all_app.
Qed.

Lemma hexdigest_shape (st : hasher) :
  length (chain st) = 8%nat ->
  String.length (hexdigest st) = 64%nat /\ all_chars is_lower_hex (hexdigest st) = true.
Proof.
  intros H. unfold hexdigest.
  destruct (hex_words_spec (chain (fold_left absorb (padding (total st)) st))) as [L A].
  split; [|exact A]. rewrite L. fold (update st (padding (total st))).
  now rewrite update_chain_length, H.
Qed.

End DigestFacts.

Module DigestSpec.
Import PyStr PyStrFacts Os Sha256 CiBuild DigestFacts.
Import Scenarios.

(** C6: for a readable file, [get_sha256_sum], which feeds the file to the
    hash object in blocks of 4096 bytes, returns the SHA-256 digest of the
    whole content: 64 lower-case hexadecimal characters, the same for every
    way of cutting the content into blocks; the digest of the empty file is
    e3b0c442...7852b855. *)
Theorem get_sha256_sum_whole_content (f : fs) (filename : string) (data : list byte) :
  f !! filename = Some (File data) ->
  get_sha256_sum filename f = (f, inr (sha256_hex data)) /\
  String.length (sha256_hex data) = 64%nat /\
  all_chars is_lower_hex (sha256_hex data) = true /\
  (forall blocks, List.concat blocks = data ->
     hexdigest (fold_left update blocks new) = sha256_hex data) /\
  sha256_hex [] = "e3b0c44298fc1c149afbf4c8996fb92427ae41e4649b934ca495991b7852b855".
Proof.
  intros H. split; [|split; [|split; [|split]]].
  - now apply get_sha256_sum_ok.
  - apply hexdigest_shape. unfold sha256_hex. now rewrite update_chain_length.
  - apply hexdigest_shape. unfold sha256_hex. now rewrite update_chain_length.
  - intros blocks <-. now rewrite update_blocks.
  - vm_compute. reflexivity.
Qed.

Lemma get_sha256_sum_whole_content_witness :
  get_sha256_sum "abc.txt" abc_file =
    (abc_file, inr "ba7816bf8f01cfea414140de5dae2223b00361a396177a9cb410ff61f20015ad").
Proof.
  destruct (get_sha256_sum_whole_content abc_file "abc.txt"
              (String.list_byte_of_string "abc")) as [E _].
  - reflexivity.
  - rewrite E. vm_compute. reflexivity.
Defined.

End DigestSpec.

(* ===================================================================== *)
(** * ci_build.py: hash records, archives, and the missing binary *)
(* ===================================================================== *)

Module CiBuildFacts.
Import PyStr PyStrFacts Os OsFacts Sha256 CiBuild DigestFacts.

Lemma bytes_app (a b : string) :
  String.list_byte_of_string (a +:+ b) =
  String.list_byte_of_string a ++ String.list_byte_of_string b.
Proof.
  unfold String.list_byte_of_string.
  induction a as [|c a IH]; [reflexivity|].
  rewrite str_app_cons. simpl. now rewrite IH.
Qed.

Lemma open_w_ok (f : fs) (p : string) (initial : list byte) :
  f !! p <> Some Dir -> parent_error f p = None ->
  open_w p initial f = (<[p := File initial]> f, inr tt).
Proof.
  intros Hd Hp. unfold open_w. rewrite Hp.
  destruct (f !! p) as [[|d]|]; [contradiction | reflexivity | reflexivity].
Qed.

Lemma open_w_frame (f : fs) (p q : string) (initial : list byte) :
  q <> p -> fst (open_w p initial f) !! q = f !! q.
Proof.
  intros Hq. unfold open_w.
  destruct (f !! p) as [[|d]|]; [reflexivity | |];
    (destruct (parent_error f p); [reflexivity|]); simpl;
    now rewrite lookup_insert_ne.
Qed.

Lemma file_write_ok (f : fs) (p text : string) (data : list byte) :
  f !! p = Some (File data) ->
  file_write p text f = (<[p := File (data ++ String.list_byte_of_string text)]> f, inr tt).
Proof. intros H. unfold file_write. now rewrite H. Qed.


Lemma create_hash_file_ok (f : fs) (filepath final_dir : string) (data : list byte) :
  f !! filepath = Some (File data) ->
  f !! hash_path_of filepath final_dir <> Some Dir ->
  parent_error f (hash_path_of filepath final_dir) = None ->
  create_hash_file filepath final_dir f =
    (<[hash_path_of filepath final_dir :=
         File (String.list_byte_of_string
                 (sha256_hex data +:+ "  " +:+ basename filepath))]> f,
     inr tt).
Proof.
  intros Hf Hd Hp. unfold create_hash_file.
  fold (hash_path_of filepath final_dir). set (hp := hash_path_of filepath final_dir) in *.
  unfold mbind, io_bind. rewrite (get_sha256_sum_ok _ _ _ Hf).
  rewrite (open_w_ok _ _ _ Hd Hp).
  rewrite (file_write_ok _ hp _ []) by apply lookup_insert_eq.
  rewrite insert_insert_eq.
  rewrite (file_write_ok _ hp _ _) by apply lookup_insert_eq.
  rewrite insert_insert_eq.
  rewrite (file_write_ok _ hp _ _) by apply lookup_insert_eq.
  rewrite insert_insert_eq. rewrite !bytes_app, <- !List.app_assoc. reflexivity.
Qed.


(** ** Last characters tell the paths apart *)

Lemma app_nonempty_r (a b : string) : b <> "" -> a +:+ b <> "".
Proof.
  intros Hb H. destruct a; [now rewrite str_app_nil_l in H | discriminate H].
Qed.

Lemma last_char_some_nonempty (s : string) (c : ascii) : last_char s = Some c -> s <> "".
Proof. intros H ->. discriminate H. Qed.

Lemma last_char_app_some (a b : string) (c : ascii) :
  last_char b = Some c -> last_char (a +:+ b) = Some c.
Proof.
  intros H. rewrite last_char_app; [exact H | eapply last_char_some_nonempty, H].
Qed.

Lemma path_join1_last (a b : string) (c : ascii) :
  last_char b = Some c -> last_char (path_join a [b]) = Some c.
Proof.
  intros H. unfold path_join. simpl.
  rewrite join2_last; [exact H | eapply last_char_some_nonempty, H].
Qed.

Lemma archive_path_last (fmt : archive_format) (version target final_dir : string) :
  last_char (archive_path_of fmt version target final_dir) = Some (last_of fmt).
Proof.
  unfold archive_path_of. apply path_join1_last.
  do 5 apply last_char_app_some. now destruct fmt.
Qed.

Lemma hash_path_last (filepath final_dir : string) :
  last_char (hash_path_of filepath final_dir) = Some "6"%char.
Proof.
  unfold hash_path_of. apply path_join1_last. now apply last_char_app_some.
Qed.

Lemma hash_path_not_archive (fmt : archive_format) (version target final_dir fp fd : string) :
  archive_path_of fmt version target final_dir <> hash_path_of fp fd.
Proof.
  intros H. pose proof (archive_path_last fmt version target final_dir) as A.
  rewrite H, hash_path_last in A. now destruct fmt.
Qed.


Lemma binary_path_last (target_dir target : string) :
  last_char (binary_path_of target_dir target) = Some "s"%char \/
  last_char (binary_path_of target_dir target) = Some "e"%char.
Proof.
  unfold binary_path_of.
  change [target; "release"; bin_name_of target]
    with ([target; "release"] ++ [bin_name_of target]).
  unfold bin_name_of. destruct (contains "windows" target).
  - right. now rewrite path_join_last.
  - left. now rewrite path_join_last.
Qed.

Lemma binary_not_archive (fmt : archive_format) (target_dir version target final_dir : string) :
  binary_path_of target_dir target <> archive_path_of fmt version target final_dir.
Proof.
  intros H. pose proof (archive_path_last fmt version target final_dir) as A.
  rewrite <- H in A. destruct (binary_path_last target_dir target) as [B|B];
    rewrite B in A; now destruct fmt.
Qed.

(** ** Writing members *)

Section Members.
Context (E : env).

Lemma zip_write_file (f : fs) (a : archive) (filename name : string)
    (arcname : option string) (d : list byte) :
  f !! filename = Some (File d) ->
  zip_arcname (default filename arcname) false = inr name ->
  zip_write E filename arcname (f, a) =
    ((<[arc_name a := File (zip_image E false (arc_members a ++ [(name, d)]))]> f,
      Archive (arc_name a) (arc_members a ++ [(name, d)])), inr tt).
Proof. intros Hf Hn. unfold zip_write. rewrite Hf. simpl. now rewrite Hn. Qed.

Lemma zip_write_missing (f : fs) (a : archive) (filename : string) (arcname : option string) :
  f !! filename = None ->
  zip_write E filename arcname (f, a) = ((f, a), inl (FileNotFoundError filename)).
Proof. intros Hf. unfold zip_write. now rewrite Hf. Qed.


Lemma tar_add_missing (f : fs) (a : archive) (name : string) (arcname : option string) :
  name <> arc_name a -> f !! name = None ->
  tar_add E name arcname (f, a) = ((f, a), inl (FileNotFoundError name)).
Proof.
  intros Hne Hf. unfold tar_add. apply String.eqb_neq in Hne. now rewrite Hne, Hf.
Qed.

(** The loop over the extra files, when each is a regular file that is not
    the archive and is its own member name. *)
Lemma zip_write_each (f : fs) (path : string) (files : list string) :
  Forall (fun x => x <> path /\ (exists d, f !! x = Some (File d)) /\
                   zip_arcname x false = inr x) files ->
  forall (members : list member) (img : list byte),
  exists ms img',
    for_each (fun file => zip_write E file None) files
      (<[path := File img]> f, Archive path members)
    = ((<[path := File img']> f, Archive path (members ++ ms)), inr tt) /\
    map fst ms = files.
Proof.
  induction 1 as [|x files (Hne & (d & Hd) & Hn) _ IH]; intros members img.
  - exists [], img. rewrite app_nil_r. now split.
  - cbn [for_each]. unfold mbind, io_bind.
    rewrite (zip_write_file _ _ x x None d); [|now rewrite lookup_insert_ne | exact Hn].
    cbn [arc_name arc_members]. rewrite insert_insert_eq.
    destruct (IH (members ++ [(x, d)]) (zip_image E false (members ++ [(x, d)])))
      as (ms & img' & Hrun & Hms).
    exists ((x, d) :: ms), img'. rewrite Hrun, <- List.app_assoc. split; [reflexivity|].
    simpl. now rewrite Hms.
Qed.






End Members.

End CiBuildFacts.

Module CiBuildSpec.
Import PyStr PyStrFacts Os OsFacts Sha256 CiBuild DigestFacts CiBuildFacts.
Import Scenarios.

(** C5: given a readable file and a directory the record can be written
    to, [create_hash_file] changes the file system in exactly one place: the
    file named <basename of the file>.sha256 under the output directory,
    whose content is the digest, two spaces and the base name of the file,
    and nothing else. *)
Theorem create_hash_file_record (f : fs) (filepath final_dir : string) (data : list byte) :
  let filename := basename filepath in
  let hash_filepath := path_join final_dir [filename +:+ ".sha256"] in
  f !! filepath = Some (File data) ->
  f !! hash_filepath <> Some Dir ->
  parent_error f hash_filepath = None ->
  create_hash_file filepath final_dir f =
    (<[hash_filepath :=
         File (String.list_byte_of_string (sha256_hex data +:+ "  " +:+ filename))]> f,
     inr tt) /\
  basename hash_filepath = filename +:+ ".sha256".
Proof.
  intros filename hash_filepath Hf Hd Hp. split.
  - now apply create_hash_file_ok.
  - unfold hash_filepath, path_join. simpl. apply basename_join2.
    rewrite char_in_app. unfold filename. now rewrite basename_no_sep.
Qed.

Lemma create_hash_file_record_witness :
  create_hash_file "dist/archive.zip" "dist" one_archive =
    (<["dist/archive.zip.sha256" :=
         File (String.list_byte_of_string
           "ba7816bf8f01cfea414140de5dae2223b00361a396177a9cb410ff61f20015ad  archive.zip")]>
       one_archive, inr tt).
Proof.
  destruct (create_hash_file_record one_archive "dist/archive.zip" "dist"
              (String.list_byte_of_string "abc")) as [E _].
  - reflexivity.
  - vm_compute. discriminate.
  - reflexivity.
  - rewrite E. vm_compute. reflexivity.
Defined.

Lemma join_lookup_infix (sp : string) (l : list string) (i : nat) (x : string) :
  l !! i = Some x -> exists a b, join sp l = a +:+ x +:+ b.
Proof.
  revert i. induction l as [|y l IH]; intros i H; [discriminate|].
  destruct i as [|i]; simpl in H.
  - injection H as ->. exists "". destruct l as [|z l].
    + exists "". simpl. now rewrite str_app_nil_r.
    + eexists. rewrite join_cons. reflexivity.
  - destruct (IH i H) as (a & b & Hj). destruct l as [|z l]; [discriminate|].
    exists (y +:+ sp +:+ a), b. rewrite join_cons, Hj, !str_app_assoc. reflexivity.
Qed.

(** C2 as written fails: aarch64-linux-android, whose OS component is
    "android", is archived as tar.gz. *)
Lemma android_triple_is_targz :
  os_component "aarch64-linux-android" = Some "android" /\
  archive_format_of "aarch64-linux-android" = TarGz /\
  ~ (archive_format_of "aarch64-linux-android" = TarGz <->
     os_component "aarch64-linux-android" = Some "linux").
Proof.
  split; [reflexivity|]. split; [reflexivity|].
  intros [H _]. specialize (H eq_refl). discriminate H.
Qed.

(** C2, amended: the archive format is TarGz exactly when the text "linux"
    occurs somewhere in the triple, and Zip otherwise; in particular it is
    TarGz whenever the OS component is "linux".  It is TarGz for
    x86_64-unknown-linux-gnu and Zip for x86_64-pc-windows-gnu and
    x86_64-apple-darwin. *)
Theorem archive_format_by_occurrence (target : string) :
  (archive_format_of target = TarGz <-> exists a b, target = a +:+ "linux" +:+ b) /\
  (archive_format_of target = Zip <-> ~ exists a b, target = a +:+ "linux" +:+ b) /\
  (os_component target = Some "linux" -> archive_format_of target = TarGz) /\
  archive_format_of "x86_64-unknown-linux-gnu" = TarGz /\
  archive_format_of "x86_64-pc-windows-gnu" = Zip /\
  archive_format_of "x86_64-apple-darwin" = Zip.
Proof.
  assert (Hc : archive_format_of target = TarGz <-> contains "linux" target = true).
  { unfold archive_format_of. destruct (contains "linux" target); split; congruence. }
  split; [|split; [|split; [|repeat split]]].
  - now rewrite Hc, contains_iff.
  - rewrite <- contains_iff, <- Hc. destruct (archive_format_of target); split; congruence.
  - intros H. apply Hc, contains_iff. unfold os_component in H.
    destruct (join_lookup_infix "-" _ _ _ H) as (a & b & Hj).
    rewrite join_split in Hj. now exists a, b.
Qed.

Lemma archive_format_by_occurrence_witness :
  archive_format_of "x86_64-unknown-linux-musl" = TarGz.
Proof.
  destruct (archive_format_by_occurrence "x86_64-unknown-linux-musl")
    as (_ & _ & H & _).
  apply H. reflexivity.
Defined.



(** C1 fails: starting from an empty file system, the run for
    x86_64-apple-darwin fails on the missing binary but leaves
    dist/yamis-0.1.0-x86_64-apple-darwin.zip behind. *)
Lemma missing_binary_leaves_archive_file :
  ~ missing_binary_writes_nothing plain_env "target" "x86_64-apple-darwin" "0.1.0" "dist" ∅.
Proof.
  intros H. destruct H as (_ & H & _); [reflexivity | reflexivity |].
  vm_compute in H. discriminate H.
Qed.

(** C1, amended: when the build succeeds, the output directory is there or
    can be made, the archive can be opened, and no binary is at
    <target_dir>/<target>/release/<name>, the run fails with
    FileNotFoundError naming that path and writes no hash record; the
    archive file has by then been created and is left at its path with no
    member (closed for a zip, unfinished for a tar.gz). *)
Theorem missing_binary_fails_after_open (E : env)
    (target_dir target version final_dir : string) (f f1 f2 : fs) :
  let fmt := archive_format_of target in
  let path := archive_path_of fmt version target final_dir in
  let binary := binary_path_of target_dir target in
  let closed := match fmt with Zip => true | TarGz => false end in
  run_process E (build_cmd target_dir target) f = (f1, 0%Z) ->
  ensure_dir final_dir f1 = (f2, inr tt) ->
  f2 !! path <> Some Dir ->
  parent_error f2 path = None ->
  f2 !! binary = None ->
  __main__ E target_dir target version final_dir f =
    (<[path := File (image_of E fmt closed [])]> f2, inl (FileNotFoundError binary)) /\
  (<[path := File (image_of E fmt closed [])]> f2) !! hash_path_of path final_dir =
    f2 !! hash_path_of path final_dir.
Proof.
  intros fmt path binary closed Hbuild Hdir Hd Hp Hmiss. split.
  2:{ apply lookup_insert_ne. apply hash_path_not_archive. }
  pose proof (binary_not_archive fmt target_dir version target final_dir) as Hne.
  fold binary path in Hne.
  unfold __main__, mbind, io_bind, subprocess_run_checked.
  rewrite Hbuild. cbn [Z.eqb]. rewrite Hdir.
  fold (binary_path_of target_dir target). fold binary. fold fmt.
  subst closed. destruct fmt eqn:Efmt.
  - unfold tar_files, mbind, io_bind, with_TarFile.
    fold (ext_of TarGz). fold (archive_path_of TarGz version target final_dir). fold path.
    rewrite (open_w_ok _ _ _ Hd Hp).
    rewrite tar_add_missing; [reflexivity | exact Hne | now rewrite lookup_insert_ne].
  - unfold zip_files, mbind, io_bind, with_ZipFile.
    fold (ext_of Zip). fold (archive_path_of Zip version target final_dir). fold path.
    rewrite (open_w_ok _ _ _ Hd Hp).
    rewrite zip_write_missing by now rewrite lookup_insert_ne.
    cbn [arc_members]. now rewrite insert_insert_eq.
Qed.

Lemma missing_binary_fails_after_open_witness :
  __main__ plain_env "target" "x86_64-apple-darwin" "0.1.0" "dist" ∅ =
    (<["dist/yamis-0.1.0-x86_64-apple-darwin.zip" := File (String.list_byte_of_string "zip:")]>
       (<["dist" := Dir]> ∅),
     inl (FileNotFoundError "target/x86_64-apple-darwin/release/yamis")).
Proof.
  destruct (missing_binary_fails_after_open plain_env
              "target" "x86_64-apple-darwin" "0.1.0" "dist" ∅ ∅ (<["dist" := Dir]> ∅))
    as [Hrun _].
  - reflexivity.
  - reflexivity.
  - vm_compute. discriminate.
  - reflexivity.
  - reflexivity.
  - exact Hrun.
Defined.

End CiBuildSpec.

(* ===================================================================== *)
(** * zip_releases.py: fail-fast packaging and the names of the extras *)
(* ===================================================================== *)

Module ZipReleasesFacts.
Import PyStr PyStrFacts Os OsFacts CiBuildFacts ZipReleases.

Lemma mkdir_preserves (p : string) (f : fs) (k : string) (v : node) :
  f !! k = Some v -> fst (mkdir p f) !! k = Some v.
Proof.
  intros H. unfold mkdir.
  destruct (negb (nonempty p)); [exact H|].
  destruct (all_chars is_sep p); [exact H|]. cbv zeta.
  destruct (f !! rstrip_by is_sep p) eqn:Ep; [exact H|].
  destruct (parent_error f (rstrip_by is_sep p)) as [[]|]; try exact H. simpl.
  rewrite lookup_insert_ne; [exact H|]. intros <-. congruence.
Qed.

Lemma make_last_preserves (name : string) (ok : bool) (f : fs) (k : string) (v : node) :
  f !! k = Some v -> fst (make_last name ok f) !! k = Some v.
Proof.
  intros H. unfold make_last. pose proof (mkdir_preserves name f k v H) as M.
  destruct (mkdir name f) as [f1 [e|u]]; simpl in *; [|exact M].
  destruct (negb ok || negb (path_isdir f1 name)); exact M.
Qed.

Lemma makedirs_preserves (name : string) (ok : bool) (f : fs) (k : string) (v : node) :
  f !! k = Some v -> fst (makedirs name ok f) !! k = Some v.
Proof.
  funelim (makedirs name ok f); intros Hk.
  - clear Heqcall. destruct (nonempty parent && negb (path_exists f parent)).
    + specialize (H k v Hk).
      destruct (makedirs parent exist_ok f) as [f1 [e|u]]; simpl in H.
      * destruct e; try exact H.
        destruct (String.eqb leaf "."); [exact H | now apply make_last_preserves].
      * destruct (String.eqb leaf "."); [exact H | now apply make_last_preserves].
    + now apply make_last_preserves.
  - now apply make_last_preserves.
Qed.

Lemma for_each_app_ok {S A} (body : A -> io S unit) (l1 l2 : list A) (s s1 : S) :
  for_each body l1 s = (s1, inr tt) ->
  for_each body (l1 ++ l2) s = for_each body l2 s1.
Proof.
  revert s. induction l1 as [|x l1 IH]; intros s H.
  - now injection H as ->.
  - cbn [for_each app] in *. unfold mbind, io_bind in *.
    destruct (body x s) as [s' [e|[]]]; [discriminate H|]. now apply IH.
Qed.

Lemma for_each_raise {S A} (body : A -> io S unit) (x : A) (l : list A)
    (s s' : S) (e : exn) :
  body x s = (s', inl e) -> for_each body (x :: l) s = (s', inl e).
Proof. intros H. cbn [for_each]. now apply bind_raise. Qed.

Lemma open_w_success (p : string) (initial : list byte) (f f' : fs) :
  open_w p initial f = (f', inr tt) -> f' = <[p := File initial]> f.
Proof.
  unfold open_w. intros H.
  destruct (f !! p) as [[|d]|]; [discriminate H | |];
    (destruct (parent_error f p); [discriminate H|]); now injection H as <-.
Qed.

Lemma zip_path_last (version arch : string) :
  last_char (zip_path_of version arch) = Some "p"%char.
Proof.
  unfold zip_path_of. apply path_join1_last. now do 3 apply last_char_app_some.
Qed.

Lemma extra_not_zip_path (version arch : string) :
  Forall (fun x => x <> zip_path_of version arch) EXTRA.
Proof.
  pose proof (zip_path_last version arch) as A.
  repeat constructor; intros H; rewrite <- H in A; discriminate A.
Qed.

Lemma extra_names : Forall (fun x => zip_arcname x false = inr x) EXTRA.
Proof. repeat constructor. Qed.

Section Packaging.
Context (E : env).

(** A member that was written was there, and writing it changed the
    archive's own file only. *)
Lemma zip_write_success (filename : string) (arcname : option string)
    (f f1 : fs) (a a1 : archive) :
  zip_write E filename arcname (f, a) = ((f1, a1), inr tt) ->
  f !! filename <> None /\ arc_name a1 = arc_name a /\
  (forall q, q <> arc_name a -> f1 !! q = f !! q) /\
  exists m, arc_members a1 = arc_members a ++ [m].
Proof.
  unfold zip_write. intros H. destruct (f !! filename) as [nd|]; [|discriminate H].
  destruct (zip_arcname _ _) as [e|name]; [discriminate H|].
  injection H as <- <-. split; [discriminate|]. split; [reflexivity|]. split.
  - intros q Hq. now rewrite lookup_insert_ne.
  - eexists. reflexivity.
Qed.

Lemma zip_write_each_success (files : list string) :
  forall (f f1 : fs) (a a1 : archive),
  for_each (fun file => zip_write E file None) files (f, a) = ((f1, a1), inr tt) ->
  arc_name a1 = arc_name a /\
  (forall q, q <> arc_name a -> f1 !! q = f !! q) /\
  Forall (fun x => x <> arc_name a -> f !! x <> None) files.
Proof.
  induction files as [|x files IH]; intros f f1 a a1 H.
  - injection H as <- <-. repeat split. constructor.
  - cbn [for_each] in H. unfold mbind, io_bind in H.
    destruct (zip_write E x None (f, a)) as [[f0 a0] [e|[]]] eqn:Ew; [discriminate H|].
    apply zip_write_success in Ew as (Hx & Hn & Hfr & _).
    apply IH in H as (Hn' & Hfr' & Hall). rewrite Hn in *.
    split; [exact Hn'|]. split.
    + intros q Hq. now rewrite Hfr', Hfr.
    + constructor; [intros _; exact Hx|].
      eapply Forall_impl; [exact Hall|]. intros y Hy Hne. simpl in Hy.
      rewrite <- Hfr by exact Hne. now apply Hy.
Qed.

(** [package_binary] up to the first member: the directory is made, the
    archive opened, and the staged binary is not there. *)
Lemma package_binary_missing (version arch binary : string) (f f1 : fs) :
  makedirs (zip_dir_of version) true f = (f1, inr tt) ->
  f1 !! zip_path_of version arch <> Some Dir ->
  parent_error f1 (zip_path_of version arch) = None ->
  f1 !! staged_binary version arch binary = None ->
  staged_binary version arch binary <> zip_path_of version arch ->
  package_binary E version arch binary f =
    (<[zip_path_of version arch := File (zip_image E true [])]> f1,
     inl (FileNotFoundError (staged_binary version arch binary))).
Proof.
  intros Hmk Hd Hp Hmiss Hne. unfold package_binary.
  fold (zip_dir_of version). fold (zip_path_of version arch).
  fold (staged_binary version arch binary).
  rewrite (bind_ok _ _ _ _ _ Hmk). unfold with_ZipFile.
  rewrite (open_w_ok _ _ _ Hd Hp).
  erewrite bind_raise; [|apply zip_write_missing; now rewrite lookup_insert_ne].
  cbn [arc_members]. now rewrite insert_insert_eq.
Qed.

(** What a successful [package_binary] did. *)
Lemma package_binary_success (version arch binary : string) (f f' : fs) :
  package_binary E version arch binary f = (f', inr tt) ->
  exists f1 first f2 a,
    makedirs (zip_dir_of version) true f = (f1, inr tt) /\
    for_each (fun extra => zip_write E extra None) EXTRA
      (<[zip_path_of version arch := File (zip_image E false [first])]> f1,
       Archive (zip_path_of version arch) [first]) = ((f2, a), inr tt) /\
    f' = <[zip_path_of version arch := File (zip_image E true (arc_members a))]> f2.
Proof.
  unfold package_binary.
  fold (zip_dir_of version). fold (zip_path_of version arch).
  fold (staged_binary version arch binary).
  set (zp := zip_path_of version arch). intros H.
  unfold mbind at 1, io_bind at 1 in H.
  destruct (makedirs (zip_dir_of version) true f) as [f1 [e|[]]] eqn:Emk;
    [discriminate H|].
  unfold with_ZipFile in H.
  destruct (open_w zp (zip_image E false []) f1) as [f0 [e|[]]] eqn:Eop;
    [discriminate H|].
  apply open_w_success in Eop. subst f0.
  unfold mbind, io_bind in H.
  destruct (zip_write E _ _ _) as [[f3 a3] [e|[]]] eqn:Ew in H.
  { discriminate H. }
  unfold zip_write in Ew.
  destruct (_ !! staged_binary version arch binary) as [nd|]; [|discriminate Ew].
  destruct (zip_arcname _ _) as [e|name]; [discriminate Ew|].
  cbn [arc_name arc_members app] in Ew. rewrite insert_insert_eq in Ew.
  injection Ew as <- <-.
  destruct (for_each _ EXTRA _) as [[f2 a] [e|[]]] eqn:Eloop; [discriminate H|].
  injection H as <-. now exists f1, (name, match nd with File d => d | Dir => [] end), f2, a.
Qed.

End Packaging.

End ZipReleasesFacts.

Module ZipReleasesSpec.
Import PyStr PyStrFacts Os OsFacts CiBuild CiBuildFacts ZipReleases ZipReleasesFacts.
Import Scenarios.

(** C8: the targets are taken in list order; when the ones before a target
    were packaged, the release directory can be made and the archive opened,
    and the staged binary of that target is missing, the run fails with
    FileNotFoundError (an IOError) naming
    target_releases/v<version>/<triple>/release/<binary>, in the same state
    whatever targets follow: none of them is processed. *)
Theorem package_each_fails_fast (E : env) (version arch binary : string)
    (before later : list (string * string)) (f f1 f2 : fs) :
  let missing := staged_binary version arch binary in
  let zip_path := zip_path_of version arch in
  package_each E version before f = (f1, inr tt) ->
  makedirs (zip_dir_of version) true f1 = (f2, inr tt) ->
  f2 !! zip_path <> Some Dir ->
  parent_error f2 zip_path = None ->
  f2 !! missing = None ->
  missing <> zip_path ->
  package_each E version (before ++ (arch, binary) :: later) f =
    (<[zip_path := File (zip_image E true [])]> f2, inl (FileNotFoundError missing)).
Proof.
  intros missing zip_path Hbefore Hmk Hd Hp Hmiss Hne. unfold package_each in *.
  rewrite (for_each_app_ok _ _ _ _ _ Hbefore).
  apply for_each_raise. now apply package_binary_missing.
Qed.

Lemma package_each_fails_fast_witness :
  snd (main plain_env ["zip_releases.py"; "1.0.0"] staged_release) =
    inl (FileNotFoundError "target_releases/v1.0.0/x86_64-pc-windows-gnu/release/yamis.exe") /\
  fst (main plain_env ["zip_releases.py"; "1.0.0"] staged_release)
    !! "releases/v1.0.0/x86_64-unknown-linux-gnu-v1.0.0.zip" = None.
Proof.
  pose proof (package_each_fails_fast plain_env "1.0.0" "x86_64-pc-windows-gnu" "yamis.exe"
                [("x86_64-apple-darwin", "yamis")] [("x86_64-unknown-linux-gnu", "yamis")]
                staged_release
                (fst (package_each plain_env "1.0.0" [("x86_64-apple-darwin", "yamis")]
                        staged_release))
                (fst (package_each plain_env "1.0.0" [("x86_64-apple-darwin", "yamis")]
                        staged_release))) as H.
  cbv zeta in H. unfold main. cbn [lookup list_lookup].
  change BINARIES with ([("x86_64-apple-darwin", "yamis")] ++
    ("x86_64-pc-windows-gnu", "yamis.exe") :: [("x86_64-unknown-linux-gnu", "yamis")]).
  rewrite H.
  - split; [reflexivity | vm_compute; reflexivity].
  - vm_compute. reflexivity.
  - vm_compute. reflexivity.
  - vm_compute. discriminate.
  - vm_compute. reflexivity.
  - vm_compute. reflexivity.
  - vm_compute. discriminate.
Defined.

(** C9: an archive made by [package_binary] needs README.md, LICENSE and
    CHANGELOG.MD to be there, and (these being regular files) stores them
    under exactly these names after the binary; the release builder's list
    has CHANGELOG.md instead, so with only CHANGELOG.md present
    [package_binary] fails on CHANGELOG.MD. *)
Theorem extras_named_changelog_upper_case (E : env) (version arch binary : string)
    (f f' : fs) :
  package_binary E version arch binary f = (f', inr tt) ->
  Forall (fun x => f' !! x <> None) ["README.md"; "LICENSE"; "CHANGELOG.MD"] /\
  (Forall (fun x => exists d, f !! x = Some (File d)) EXTRA ->
   exists first rest,
     f' !! zip_path_of version arch = Some (File (zip_image E true (first :: rest))) /\
     map fst rest = ["README.md"; "LICENSE"; "CHANGELOG.MD"]) /\
  EXTRA_FILES_TO_ZIP = ["README.md"; "LICENSE"; "CHANGELOG.md"] /\
  "CHANGELOG.MD" <> "CHANGELOG.md" /\
  snd (package_binary plain_env "1.0.0" "x86_64-apple-darwin" "yamis" lower_case_tree)
    = inl (FileNotFoundError "CHANGELOG.MD").
Proof.
  intros Hrun.
  destruct (package_binary_success E _ _ _ _ _ Hrun) as (f1 & first & f2 & a & Hmk & Hloop & ->).
  set (zp := zip_path_of version arch) in *.
  pose proof (extra_not_zip_path version arch) as Hx. fold zp in Hx.
  split; [|split; [|split; [reflexivity | split; [discriminate | vm_compute; reflexivity]]]].
  - destruct (zip_write_each_success E _ _ _ _ _ Hloop) as (_ & Hfr & Hall).
    cbn [arc_name] in *. change ["README.md"; "LICENSE"; "CHANGELOG.MD"] with EXTRA.
    pose proof (conj Hx Hall) as Hboth. apply Forall_and in Hboth.
    eapply Forall_impl; [exact Hboth|]. intros x [Hne Hin]. cbn beta in *.
    rewrite lookup_insert_ne by congruence. rewrite Hfr by exact Hne. now apply Hin.
  - intros Hreg.
    destruct (zip_write_each E f1 zp EXTRA) with
      (members := [first]) (img := zip_image E false [first]) as (ms & img' & Hrun' & Hms).
    { apply Forall_and. split; [exact Hx|]. apply Forall_and. split; [|apply extra_names].
      eapply Forall_impl; [exact Hreg|]. intros x [d Hd]. exists d.
      pose proof (makedirs_preserves (zip_dir_of version) true f x _ Hd) as P.
      now rewrite Hmk in P. }
    rewrite Hrun' in Hloop. injection Hloop as <- <-.
    exists first, ms. split; [|exact Hms]. cbn [arc_members app]. apply lookup_insert_eq.
Qed.

Lemma extras_named_changelog_upper_case_witness :
  fst (package_binary plain_env "1.0.0" "x86_64-apple-darwin" "yamis" staged_release)
    !! "releases/v1.0.0/x86_64-apple-darwin-v1.0.0.zip"
  = Some (File (String.list_byte_of_string "zip:yamis,README.md,LICENSE,CHANGELOG.MD")).
Proof.
  destruct (extras_named_changelog_upper_case plain_env "1.0.0" "x86_64-apple-darwin" "yamis"
              staged_release
              (fst (package_binary plain_env "1.0.0" "x86_64-apple-darwin" "yamis"
                      staged_release))) as (_ & H & _).
  - vm_compute. reflexivity.
  - destruct H as (first & rest & Hat & _).
    + repeat constructor; eexists; reflexivity.
    + vm_compute. reflexivity.
Defined.

End ZipReleasesSpec.

(* ===================================================================== *)
(** * The coverage script: the runs, their directories, and the merge *)
(* ===================================================================== *)

Module CovMore.
Import PyStr PyStrFacts GenerateCov GenerateCovFacts CovNames.

Lemma commands_app (a b : list event) : commands (a ++ b) = commands a ++ commands b.
Proof. unfold commands. apply flat_map_app. Qed.

Lemma kcov_not_rm (out binary : string) : kcov_cmd out binary <> rm_cmd.
Proof. discriminate. Qed.

(** The directories the loop hands on, whatever the world does. *)
Lemma run_coverage_dirs (bins : list string) :
  forall (i : nat) (dirs dirs' : list string) (w : world) (tr : list event),
  snd (run_coverage i bins dirs w tr) = inr dirs' ->
  dirs' = dirs ++ map out_dir (seq i (length bins)).
Proof.
  induction bins as [|b bins IH]; intros i dirs dirs' w tr H.
  - simpl in H. injection H as <-. simpl. now rewrite app_nil_r.
  - cbn [run_coverage] in H. unfold mbind, prog_bind in H.
    destruct (subprocess_run _ true w tr) as [tr1 [s|r]]; [discriminate H|].
    apply IH in H. rewrite H, <- List.app_assoc. reflexivity.
Qed.

(** The loop in a world where the coverage tool succeeds. *)
Lemma run_coverage_all_ok (w : world) (bins : list string) :
  (forall tr c, c <> rm_cmd -> returncode (w tr c) = 0%Z) ->
  forall (i : nat) (dirs : list string) (tr : list event),
  exists evs,
    run_coverage i bins dirs w tr =
      (tr ++ evs, inr (dirs ++ map out_dir (seq i (length bins)))) /\
    commands evs =
      zip_with (fun j b => kcov_cmd (out_dir j) b) (seq i (length bins)) bins.
Proof.
  intros Hw. induction bins as [|b bins IH]; intros i dirs tr.
  - exists []. simpl. rewrite !app_nil_r. now split.
  - cbn [run_coverage]. unfold mbind, prog_bind.
    fold (out_dir i). set (c := kcov_cmd (out_dir i) b).
    destruct (subprocess_run_checked_cases c w tr) as [[_ ->] | [Hn _]];
      [|exfalso; apply Hn, Hw, kcov_not_rm].
    destruct (IH (S i) (dirs ++ [out_dir i]) (tr ++ [ERun c (w tr c)]))
      as (evs & Hrun & Hcmds).
    exists (ERun c (w tr c) :: evs). rewrite Hrun, <- !List.app_assoc. split.
    + reflexivity.
    + cbn [commands flat_map app length seq zip_with]. fold (commands evs).
      now rewrite Hcmds.
Qed.

(** X1: in a world where every command after the removal
    succeeds and the build names at least one executable, the script ends
    normally, having run: the removal, the test build, the coverage tool
    once per executable in the order found (each with its own directory
    target_cov/cov_<i>), and then the merge once, over all these directories
    in the same order. *)
Theorem coverage_runs_then_merges (w : world) :
  let r := w [ERun rm_cmd (w [] rm_cmd);
              EPrint "Generating test binaries, this might take a while..."]
             cargo_test_cmd in
  let bins := binaries (stdout r +:+ stderr r) in
  (forall tr c, c <> rm_cmd -> returncode (w tr c) = 0%Z) ->
  bins <> [] ->
  snd (run w) = inr tt /\
  commands (fst (run w)) =
    rm_cmd :: cargo_test_cmd ::
    zip_with (fun i b => kcov_cmd (out_dir i) b) (seq 0 (length bins)) bins ++
    [merge_cmd (map out_dir (seq 0 (length bins)))].
Proof.
  intros r bins Hw Hne.
  remember (run w) as res eqn:E.
  unfold run, script, mbind, prog_bind in E.
  unfold subprocess_run at 1 in E. cbn [andb app] in E. unfold print at 1 in E.
  cbn [app] in E.
  set (tr2 := [ERun rm_cmd (w [] rm_cmd); EPrint _]) in *.
  destruct (subprocess_run_checked_cases cargo_test_cmd w tr2) as [[_ Hc] | [Hn _]];
    [|exfalso; apply Hn, Hw; discriminate].
  rewrite Hc in E. clear Hc. fold r in E. fold bins in E.
  unfold print at 1 in E.
  destruct bins as [|b0 bs] eqn:Eb; [contradiction|]. rewrite <- Eb in *.
  assert (Hlen : (length bins =? 0)%nat = false) by now rewrite Eb.
  rewrite Hlen in E. unfold mret, prog_ret, print at 1 in E.
  match type of E with context [run_coverage 0 bins [] w ?t] =>
    destruct (run_coverage_all_ok w bins Hw 0 [] t) as (evs & Hrun & Hcmds)
  end.
  rewrite Hrun in E. cbn [app] in E.
  match type of E with context [subprocess_run ?c true w ?t] =>
    destruct (subprocess_run_checked_cases c w t) as [[_ Hc] | [Hn _]];
      [|exfalso; apply Hn, Hw; discriminate]
  end.
  rewrite Hc in E. subst res. split; [reflexivity|].
  cbn [fst]. rewrite !commands_app, Hcmds. reflexivity.
Qed.

Lemma coverage_runs_then_merges_witness :
  commands (fst (run two_binaries_world)) =
    [rm_cmd; cargo_test_cmd;
     kcov_cmd "target_cov/cov_0" "target_cov/debug/deps/yamis-0f3a";
     kcov_cmd "target_cov/cov_1" "target_cov/debug/deps/cli-77b1";
     merge_cmd ["target_cov/cov_0"; "target_cov/cov_1"]].
Proof.
  destruct (coverage_runs_then_merges two_binaries_world) as [_ H].
  - reflexivity.
  - vm_compute. discriminate.
  - rewrite H. vm_compute. reflexivity.
Defined.

(** ** The directories *)

Lemma str_of_nat_inj (i j : nat) : str_of_nat i = str_of_nat j -> i = j.
Proof.
  unfold str_of_nat. intros H. apply DecimalNat.Unsigned.to_uint_inj.
  pose proof (NilEmpty.usu (Nat.to_uint i)) as Hi.
  pose proof (NilEmpty.usu (Nat.to_uint j)) as Hj.
  rewrite H in Hi. rewrite Hi in Hj. now injection Hj.
Qed.

Lemma out_dir_inj (i j : nat) : out_dir i = out_dir j -> i = j.
Proof.
  unfold out_dir. intros H. apply str_of_nat_inj.
  apply (String.app_inj COV_OUT_DIR) in H. now apply (String.app_inj "_") in H.
Qed.

Lemma out_dir_not_merged (i : nat) : out_dir i <> COV_OUT_DIR.
Proof.
  unfold out_dir. intros H. apply (f_equal String.length) in H.
  rewrite !Os.length_append in H. simpl in H. lia.
Qed.

(** X2: the directories the loop hands to the merge, whenever it
    gets that far, are one per executable, pairwise different, and none of
    them is the directory the merge writes to. *)
Theorem coverage_dirs_distinct (bins dirs : list string) (w : world) (tr : list event) :
  snd (run_coverage 0 bins [] w tr) = inr dirs ->
  length dirs = length bins /\ NoDup dirs /\ COV_OUT_DIR ∉ dirs.
Proof.
  intros H. apply run_coverage_dirs in H. subst dirs. cbn [app]. split; [|split].
  - now rewrite length_map, length_seq.
  - assert (Hinj : Inj (=) (=) out_dir) by exact out_dir_inj.
    apply (NoDup_fmap_2 out_dir), NoDup_seq.
  - intros Hin. apply list_elem_of_fmap in Hin as (i & Hi & _).
    symmetry in Hi. now apply out_dir_not_merged in Hi.
Qed.

Lemma coverage_dirs_distinct_witness :
  NoDup ["target_cov/cov_0"; "target_cov/cov_1"; "target_cov/cov_2"].
Proof.
  apply (coverage_dirs_distinct ["a"; "b"; "c"] _ two_binaries_world []).
  reflexivity.
Defined.

(** ** The merge comes last *)

Lemma run_coverage_no_merge (bins : list string) :
  forall (i : nat) (dirs : list string) (w : world) (tr : list event),
  exists evs, fst (run_coverage i bins dirs w tr) = tr ++ evs /\
              Forall (fun e => is_merge e = false) evs.
Proof.
  induction bins as [|b bins IH]; intros i dirs w tr.
  - exists []. simpl. rewrite app_nil_r. split; [reflexivity | constructor].
  - cbn [run_coverage]. unfold mbind, prog_bind.
    set (c := kcov_cmd _ b).
    destruct (subprocess_run_checked_cases c w tr) as [[_ ->] | [_ ->]].
    + destruct (IH (S i) (dirs ++ [COV_OUT_DIR +:+ "_" +:+ str_of_nat i]) w
                   (tr ++ [ERun c (w tr c)])) as (evs & Hevs & Hno).
      exists (ERun c (w tr c) :: evs). rewrite Hevs, <- List.app_assoc.
      split; [reflexivity|]. constructor; [reflexivity | exact Hno].
    + exists [ERun c (w tr c)]. split; [reflexivity|]. repeat constructor.
Qed.

(** The trace is a body without merge, then at most one more event. *)
Lemma script_body_tail (w : world) :
  exists body tail,
    fst (run w) = body ++ tail /\
    Forall (fun e => is_merge e = false) body /\
    (tail = [] \/ exists e, tail = [e]).
Proof.
  remember (run w) as res eqn:E.
  unfold run, script, mbind, prog_bind in E.
  unfold subprocess_run at 1 in E. cbn [andb app] in E. unfold print at 1 in E.
  cbn [app] in E.
  set (tr2 := [ERun rm_cmd (w [] rm_cmd); EPrint _]) in E.
  destruct (subprocess_run_checked_cases cargo_test_cmd w tr2) as [[Hr Hc] | [Hr Hc]];
    rewrite Hc in E; clear Hc.
  2:{ subst res. eexists; exists []; rewrite app_nil_r. split; [reflexivity|].
      split; [repeat constructor | now left]. }
  set (r := w tr2 cargo_test_cmd) in *.
  unfold print at 1 in E.
  destruct (binaries (stdout r +:+ stderr r)) as [|b bins] eqn:Eb.
  - cbn in E. subst res. eexists; exists []; rewrite app_nil_r. split; [reflexivity|].
    split; [repeat constructor | now left].
  - cbn [length Nat.eqb] in E. unfold mret, prog_ret, print at 1 in E.
    match type of E with context [run_coverage 0 ?bs [] w ?t] =>
      destruct (run_coverage_no_merge bs 0 [] w t) as (evs & Hevs & Hno);
      destruct (run_coverage 0 bs [] w t) as [tr' out] eqn:Erun
    end.
    cbn [fst] in Hevs. subst tr'. destruct out as [s|dirs].
    + subst res. eexists; exists []; rewrite app_nil_r. split; [reflexivity|].
      split; [|now left]. cbn [app]. repeat (constructor; [reflexivity|]). exact Hno.
    + match type of E with context [subprocess_run ?c true w ?t] =>
        destruct (subprocess_run_checked_cases c w t) as [[Hm Hc] | [Hm Hc]];
          rewrite Hc in E; clear Hc
      end.
      all: subst res; eexists; eexists [_]; split; [reflexivity|];
        split; [|right; eexists; reflexivity];
        cbn [app]; repeat (constructor; [reflexivity|]); exact Hno.
Qed.

Lemma split_at_last {A} (pre post body : list A) (e x : A) (P : A -> Prop) :
  pre ++ e :: post = body ++ [x] -> Forall P body -> ~ P e -> post = [] /\ pre = body.
Proof.
  revert body. induction pre as [|a pre IH]; intros body H F Hn.
  - destruct body as [|b body].
    + simpl in H. injection H as _ H. now split.
    + simpl in H. injection H as -> _. inversion F; contradiction.
  - destruct body as [|b body].
    + simpl in H. injection H as _ H. destruct pre; discriminate H.
    + simpl in H. injection H as -> H. inversion F; subst.
      destruct (IH body H) as [-> ->]; auto.
Qed.

(** X3: the merge, when it is run at all, is the last thing the
    script does, and every command run before it, the removal apart,
    returned status 0: a failed coverage run is never followed by a
    merge. *)
Theorem merge_only_after_success (w : world) (pre post : list event) (e : event) :
  fst (run w) = pre ++ e :: post ->
  is_merge e = true ->
  post = [] /\
  (forall c r, In (ERun c r) pre -> c <> rm_cmd -> returncode r = 0%Z).
Proof.
  intros Htr He.
  destruct (script_body_tail w) as (body & tail & Hbt & Hno & Htail).
  assert (Hpost : post = []).
  { rewrite Htr in Hbt. destruct Htail as [-> | [x ->]].
    - rewrite app_nil_r in Hbt. subst body.
      apply Forall_app in Hno as [_ Hno]. inversion Hno as [|? ? Hx _].
      rewrite He in Hx. discriminate Hx.
    - apply (split_at_last _ _ _ _ _ (fun e => is_merge e = false)) in Hbt as [Hp _];
        [exact Hp | exact Hno | now rewrite He]. }
  split; [exact Hpost|]. subst post. intros c r Hin Hc.
  destruct (script_trace w) as (rest & Hrest & G). cbv zeta in *.
  rewrite Htr in Hrest.
  destruct pre as [|first pre']; [destruct Hin|].
  injection Hrest as -> Hrest. destruct Hin as [Hin | Hin].
  { injection Hin as Hcr _. congruence. }
  destruct (Z.eq_dec (returncode r) 0%Z) as [|Hr]; [assumption|exfalso].
  apply in_split in Hin as (l1 & l2 & ->).
  rewrite <- List.app_assoc in Hrest. cbn [app] in Hrest.
  symmetry in Hrest. destruct (G _ _ _ _ Hrest Hr) as [Hl2 _].
  destruct l2; discriminate Hl2.
Qed.

Lemma merge_only_after_success_witness :
  is_merge (ERun (merge_cmd ["target_cov/cov_0"; "target_cov/cov_1"])
                 (Completed 0 "" cargo_output)) = true /\
  In (ERun cargo_test_cmd (Completed 0 "" cargo_output))
     (removelast (fst (run two_binaries_world))) /\
  returncode (Completed 0 "" cargo_output) = 0%Z.
Proof.
  destruct (merge_only_after_success two_binaries_world
              (removelast (fst (run two_binaries_world))) []
              (ERun (merge_cmd ["target_cov/cov_0"; "target_cov/cov_1"])
                    (Completed 0 "" cargo_output))) as [_ H].
  - vm_compute. reflexivity.
  - reflexivity.
  - split; [reflexivity|].
    assert (Hin : In (ERun cargo_test_cmd (Completed 0 "" cargo_output))
                     (removelast (fst (run two_binaries_world)))).
    { vm_compute. right. right. left. reflexivity. }
    split; [exact Hin|]. apply (H cargo_test_cmd _ Hin). discriminate.
Defined.

(** ** The two streams *)

Lemma last_char_inv (s : string) (c : ascii) :
  last_char s = Some c -> exists pre, s = pre +:+ String c "".
Proof.
  induction s as [|d s IH]; [discriminate|]. simpl. destruct s as [|d' s].
  - intros [= ->]. now exists "".
  - intros H. destruct (IH H) as [pre ->]. now exists (String d pre).
Qed.

Lemma split_glue (sep : ascii) (a b : string) :
  split sep (a +:+ b) =
    removelast (split sep a) ++
    [last_item (split sep a) +:+ hd "" (split sep b)] ++ tl (split sep b).
Proof.
  induction a as [|c a IH].
  - rewrite str_app_nil_l. cbn [split removelast app]. unfold last_item. cbn [last].
    pose proof (split_nonempty sep b) as Hn.
    destruct (split sep b); [contradiction | reflexivity].
  - rewrite str_app_cons. cbn [split]. rewrite IH.
    pose proof (split_nonempty sep a) as Hn.
    destruct (split sep a) as [|h t]; [contradiction|].
    unfold last_item. destruct (Ascii.eqb c sep).
    + reflexivity.
    + destruct t as [|h2 t]; reflexivity.
Qed.

(** X4: the script reads the build's standard output and error as one
    text, the second put right after the first, and takes the executables
    from its lines.  Whatever the two streams hold, it finds what the lines
    of the output but the last give, then what the last line of the output
    and the first line of the error stream give when read as one line, then
    what the other lines of the error stream give.  When the output is
    empty or ends in a newline, these are the executables of the output
    followed by those of the error stream. *)
Theorem binaries_of_streams (out err : string) :
  let outs := split newline out in
  let errs := split newline err in
  (forall text, binaries text = from_lines (split newline text)) /\
  binaries (out +:+ err) =
    from_lines (removelast outs) ++
    from_lines [last_item outs +:+ hd "" errs] ++
    from_lines (tl errs) /\
  (out = "" \/ last_char out = Some newline ->
   binaries (out +:+ err) = binaries out ++ binaries err).
Proof.
  intros outs errs. split; [exact binaries_flat|]. split.
  - rewrite binaries_flat, split_glue. fold outs errs. unfold from_lines.
    now rewrite !flat_map_app.
  - intros [-> | H]; [reflexivity|].
    apply last_char_inv in H as [pre ->].
    rewrite str_app_assoc. change (String newline "" +:+ err) with (String newline err).
    rewrite !binaries_app. change (binaries "") with (@nil string).
    now rewrite app_nil_r.
Qed.

Lemma binaries_of_streams_witness :
  binaries (("warning: unused" +:+ String newline "") +:+ cargo_output) =
    ["target_cov/debug/deps/yamis-0f3a"; "target_cov/debug/deps/cli-77b1"] /\
  binaries ("Executable unittests (target/debug/deps/ya" +:+ "mis-0f3a)") =
    ["target/debug/deps/yamis-0f3a"].
Proof.
  split.
  - destruct (binaries_of_streams ("warning: unused" +:+ String newline "") cargo_output)
      as (_ & _ & H).
    rewrite H; [reflexivity | right; reflexivity].
  - destruct (binaries_of_streams "Executable unittests (target/debug/deps/ya" "mis-0f3a)")
      as (_ & H & _).
    rewrite H. reflexivity.
Defined.

End CovMore.

(* ===================================================================== *)
(** * ci_build.py: names, failures, and the whole run *)
(* ===================================================================== *)

Module CiBuildMore.
Import PyStr PyStrFacts Os OsFacts Sha256 CiBuild DigestFacts CiBuildFacts.
Import Scenarios ArchiveNames ZipReleasesFacts.

(** ** Steps that touch the archive only *)

Lemma framed_bind {A B} (m : io (fs * archive) A) (k : A -> io (fs * archive) B) :
  framed m -> (forall x, framed (k x)) -> framed (m ≫= k).
Proof.
  intros Hm Hk f a. unfold mbind, io_bind. specialize (Hm f a).
  destruct (m (f, a)) as [[f1 a1] [e|x]]; cbn [fst snd] in *; [exact Hm|].
  destruct Hm as [Hn Hfr]. specialize (Hk x f1 a1). rewrite Hn in Hk.
  destruct Hk as [Hn' Hfr']. split; [exact Hn'|].
  intros q Hq. now rewrite Hfr', Hfr.
Qed.

Lemma framed_for_each {A} (body : A -> io (fs * archive) unit) (l : list A) :
  (forall x, framed (body x)) -> framed (for_each body l).
Proof.
  intros Hb. induction l as [|x l IH].
  - intros f a. now split.
  - cbn [for_each]. apply framed_bind; [apply Hb | intros _; exact IH].
Qed.

Section Frames.
Context (E : env).

Lemma framed_zip_write (filename : string) (arcname : option string) :
  framed (zip_write E filename arcname).
Proof.
  intros f a. unfold zip_write. destruct (f !! filename) as [nd|]; [|now split].
  destruct (zip_arcname _ _) as [e|name]; [now split|]. cbn [fst snd arc_name].
  split; [reflexivity|]. intros q Hq. now rewrite lookup_insert_ne.
Qed.

Lemma framed_tar_add (name : string) (arcname : option string) :
  framed (tar_add E name arcname).
Proof.
  intros f a. unfold tar_add. destruct (String.eqb name (arc_name a)); [now split|].
  destruct (f !! name) as [nd|]; [|now split]. cbn [fst snd arc_name].
  split; [reflexivity|]. intros q Hq. now rewrite lookup_insert_ne.
Qed.

Lemma with_ZipFile_frame (path : string) (body : io (fs * archive) unit) (f : fs) (q : string) :
  framed body -> q <> path -> fst (with_ZipFile E path body f) !! q = f !! q.
Proof.
  intros Hb Hq. unfold with_ZipFile.
  pose proof (open_w_frame f path q (zip_image E false []) Hq) as Ho.
  destruct (open_w path _ f) as [f1 [e|[]]]; [exact Ho|]. cbn [fst] in Ho.
  destruct (Hb f1 (Archive path [])) as [_ Hfr]. cbn [arc_name] in Hfr.
  destruct (body (f1, Archive path [])) as [[f2 a] r]. cbn [fst] in *.
  rewrite lookup_insert_ne by congruence. now rewrite Hfr.
Qed.

Lemma with_TarFile_frame (path : string) (body : io (fs * archive) unit) (f : fs) (q : string) :
  framed body -> q <> path -> fst (with_TarFile E path body f) !! q = f !! q.
Proof.
  intros Hb Hq. unfold with_TarFile.
  pose proof (open_w_frame f path q (targz_image E false []) Hq) as Ho.
  destruct (open_w path _ f) as [f1 [e|[]]]; [exact Ho|]. cbn [fst] in Ho.
  destruct (Hb f1 (Archive path [])) as [_ Hfr]. cbn [arc_name] in Hfr.
  destruct (body (f1, Archive path [])) as [[f2 a] [e|[]]]; cbn [fst] in *.
  - now rewrite Hfr.
  - rewrite lookup_insert_ne by congruence. now rewrite Hfr.
Qed.

Lemma with_ZipFile_closed (path : string) (body : io (fs * archive) unit) (f f1 : fs) :
  with_ZipFile E path body f = (f1, inr tt) ->
  exists members, f1 !! path = Some (File (zip_image E true members)).
Proof.
  unfold with_ZipFile. destruct (open_w path _ f) as [f0 [e|[]]]; [discriminate|].
  destruct (body _) as [[f2 a] r]. intros [= <- _].
  eexists. apply lookup_insert_eq.
Qed.

Lemma with_TarFile_closed (path : string) (body : io (fs * archive) unit) (f f1 : fs) :
  with_TarFile E path body f = (f1, inr tt) ->
  exists members, f1 !! path = Some (File (targz_image E true members)).
Proof.
  unfold with_TarFile. destruct (open_w path _ f) as [f0 [e|[]]]; [discriminate|].
  destruct (body _) as [[f2 a] [e|[]]]; [discriminate|]. intros [= <-].
  eexists. apply lookup_insert_eq.
Qed.

(** The archive step of [zip_files] and [tar_files], by format. *)
Lemma archive_files_steps (fmt : archive_format) (binary version target final_dir : string) :
  exists step : io fs unit,
    archive_files E fmt binary version target final_dir =
      (step ;; create_hash_file (archive_path_of fmt version target final_dir) final_dir) /\
    (forall f q, q <> archive_path_of fmt version target final_dir ->
                 fst (step f) !! q = f !! q) /\
    (forall f f1, step f = (f1, inr tt) ->
       exists members,
         f1 !! archive_path_of fmt version target final_dir =
           Some (File (image_of E fmt true members))).
Proof.
  destruct fmt.
  - eexists. split; [reflexivity|]. split.
    + intros f q Hq. apply with_TarFile_frame; [|exact Hq].
      apply framed_bind; [apply framed_tar_add|].
      intros _. apply framed_for_each. intros x. apply framed_tar_add.
    + intros f f1. apply with_TarFile_closed.
  - eexists. split; [reflexivity|]. split.
    + intros f q Hq. apply with_ZipFile_frame; [|exact Hq].
      apply framed_bind; [apply framed_zip_write|].
      intros _. apply framed_for_each. intros x. apply framed_zip_write.
    + intros f f1. apply with_ZipFile_closed.
Qed.

End Frames.

Lemma create_hash_file_cases (f : fs) (filepath final_dir : string) (data : list byte) :
  f !! filepath = Some (File data) ->
  (exists e, create_hash_file filepath final_dir f = (f, inl e)) \/
  create_hash_file filepath final_dir f =
    (<[hash_path_of filepath final_dir :=
         File (String.list_byte_of_string
                 (sha256_hex data +:+ "  " +:+ basename filepath))]> f,
     inr tt).
Proof.
  intros Hf. set (hp := hash_path_of filepath final_dir).
  assert (Hraise : forall e, open_w hp [] f = (f, inl e) ->
                             create_hash_file filepath final_dir f = (f, inl e)).
  { intros e He. unfold create_hash_file.
    rewrite (bind_ok _ _ _ _ _ (get_sha256_sum_ok f _ data Hf)). cbv zeta.
    change (path_join final_dir [basename filepath +:+ ".sha256"]) with hp.
    exact (bind_raise _ _ _ _ _ He). }
  destruct (f !! hp) as [[|d]|] eqn:Eh.
  - left. eexists. apply Hraise. unfold open_w. now rewrite Eh.
  - destruct (parent_error f hp) as [e|] eqn:Ep.
    + left. exists e. apply Hraise. unfold open_w. now rewrite Eh, Ep.
    + right. apply create_hash_file_ok; [exact Hf | fold hp; congruence | exact Ep].
  - destruct (parent_error f hp) as [e|] eqn:Ep.
    + left. exists e. apply Hraise. unfold open_w. now rewrite Eh, Ep.
    + right. apply create_hash_file_ok; [exact Hf | fold hp; congruence | exact Ep].
Qed.

(** X6: whatever the inputs and whatever goes wrong, [zip_files]
    and [tar_files] change no path other than the archive and its hash
    record, and the hash record is computed from the finished archive:
    either the record's path is as it was, or the call has returned
    normally, the archive's path holds a closed archive, and the record
    holds the SHA-256 of exactly these bytes, two spaces and the archive's
    base name. *)
Theorem archive_files_touch_two_paths (E : env) (fmt : archive_format)
    (binary version target final_dir : string) (f : fs) :
  let path := archive_path_of fmt version target final_dir in
  let record := hash_path_of path final_dir in
  let r := archive_files E fmt binary version target final_dir f in
  (forall q, q <> path -> q <> record -> fst r !! q = f !! q) /\
  (fst r !! record = f !! record \/
   exists members,
     snd r = inr tt /\
     fst r !! path = Some (File (image_of E fmt true members)) /\
     fst r !! record =
       Some (File (String.list_byte_of_string
                     (sha256_hex (image_of E fmt true members) +:+ "  " +:+
                      basename path)))).
Proof.
  intros path record r.
  destruct (archive_files_steps E fmt binary version target final_dir)
    as (step & Hsteps & Hframe & Hclosed).
  fold path in Hsteps, Hframe, Hclosed. subst r. rewrite Hsteps.
  pose proof (hash_path_not_archive fmt version target final_dir path final_dir) as Hh.
  fold path record in Hh. unfold mbind, io_bind.
  pose proof (fun q Hq => Hframe f q Hq) as Hf.
  destruct (step f) as [f1 [e|[]]] eqn:Es; cbn [fst] in Hf.
  - cbn [fst]. split; [intros q Hq _; now apply Hf|]. left. apply Hf. congruence.
  - destruct (Hclosed f f1 Es) as (members & Hat).
    destruct (create_hash_file_cases f1 path final_dir _ Hat) as [[e He] | Hok].
    + rewrite He. cbn [fst]. split; [intros q Hq _; now apply Hf|].
      left. apply Hf. congruence.
    + rewrite Hok. fold record. cbn [fst snd]. split.
      * intros q Hq Hqh. rewrite lookup_insert_ne by congruence. now apply Hf.
      * right. exists members. split; [reflexivity|]. split.
        -- rewrite lookup_insert_ne by congruence. exact Hat.
        -- apply lookup_insert_eq.
Qed.

Lemma archive_files_touch_two_paths_witness :
  fst (zip_files plain_env "target/x86_64-unknown-linux-gnu/release/yamis"
         "1.0.0" "x86_64-unknown-linux-gnu" "dist" no_readme)
    !! "dist/yamis-1.0.0-x86_64-unknown-linux-gnu.zip.sha256" = None.
Proof.
  destruct (archive_files_touch_two_paths plain_env Zip
              "target/x86_64-unknown-linux-gnu/release/yamis"
              "1.0.0" "x86_64-unknown-linux-gnu" "dist" no_readme)
    as [_ [H | (ms & Hok & _)]].
  - exact H.
  - vm_compute in Hok. discriminate Hok.
Defined.

(** X5: the binary is looked for under the name "yamis.exe" exactly
    when the text "windows" occurs somewhere in the triple, and under the
    name "yamis" otherwise; whatever the scratch directory and the triple,
    that name is the last component of the path the binary is looked for
    at, hence the name of its member in the archive. *)
Theorem bin_name_by_occurrence (target_dir target : string) :
  (bin_name_of target = "yamis.exe" <-> exists a b, target = a +:+ "windows" +:+ b) /\
  (bin_name_of target = "yamis" <-> ~ exists a b, target = a +:+ "windows" +:+ b) /\
  basename (binary_path_of target_dir target) = bin_name_of target.
Proof.
  assert (Hc : bin_name_of target = "yamis.exe" <-> contains "windows" target = true).
  { unfold bin_name_of. destruct (contains "windows" target); split; (reflexivity || discriminate). }
  split; [|split].
  - now rewrite Hc, contains_iff.
  - rewrite <- contains_iff, <- Hc. unfold bin_name_of.
    destruct (contains "windows" target); split.
    + discriminate.
    + intros H. exfalso. apply H. reflexivity.
    + discriminate.
    + reflexivity.
  - unfold binary_path_of.
    change [target; "release"; bin_name_of target]
      with ([target; "release"] ++ [bin_name_of target]).
    rewrite path_join_snoc. apply basename_join2.
    unfold bin_name_of. now destruct (contains "windows" target).
Qed.

(** ** Which exceptions can be raised *)

Lemma quiet_bind {S A B} (m : io S A) (k : A -> io S B) :
  quiet m -> (forall x, quiet (k x)) -> quiet (m ≫= k).
Proof.
  intros Hm Hk s s' e. unfold mbind, io_bind.
  destruct (m s) as [s1 [e1|x]] eqn:Em.
  - intros [= <- <-]. eapply Hm, Em.
  - apply Hk.
Qed.

Lemma quiet_for_each {S A} (body : A -> io S unit) (l : list A) :
  (forall x, quiet (body x)) -> quiet (for_each body l).
Proof.
  intros Hb. induction l as [|x l IH].
  - intros s s' e H. discriminate H.
  - cbn [for_each]. apply quiet_bind; [apply Hb | intros _; exact IH].
Qed.

Lemma parent_error_quiet (f : fs) (p : string) (e : exn) :
  parent_error f p = Some e -> is_process_error e = false.
Proof.
  unfold parent_error. destruct (all_chars is_sep (dirname p)); [discriminate|].
  destruct (f !! dirname p) as [[|d]|]; [discriminate | |]; now intros [= <-].
Qed.

Lemma quiet_mkdir (p : string) : quiet (mkdir p).
Proof.
  intros f f' e. unfold mkdir.
  destruct (negb (nonempty p)); [now intros [= _ <-]|].
  destruct (all_chars is_sep p); [now intros [= _ <-]|]. cbv zeta.
  destruct (f !! rstrip_by is_sep p); [now intros [= _ <-]|].
  destruct (parent_error f (rstrip_by is_sep p)) as [[]|];
    (discriminate || now intros [= _ <-]).
Qed.

Lemma quiet_ensure_dir (p : string) : quiet (ensure_dir p).
Proof.
  intros f f' e. unfold ensure_dir. destruct (negb (path_exists f p)); [|discriminate].
  apply quiet_mkdir.
Qed.

Lemma quiet_open_w (p : string) (initial : list byte) : quiet (open_w p initial).
Proof.
  intros f f' e. unfold open_w.
  destruct (f !! p) as [[|d]|]; [now intros [= _ <-] | |];
    (destruct (parent_error f p) eqn:Ep; [|discriminate]);
    intros [= _ <-]; eapply parent_error_quiet, Ep.
Qed.

Lemma quiet_file_write (p text : string) : quiet (file_write p text).
Proof. intros f f' e. unfold file_write. destruct (f !! p) as [[|d]|]; discriminate. Qed.

Lemma quiet_get_sha256_sum (filename : string) : quiet (get_sha256_sum filename).
Proof.
  intros f f' e. unfold get_sha256_sum, mbind, io_bind, open_rb.
  destruct (f !! filename) as [[|d]|]; [now intros [= _ <-] | discriminate | now intros [= _ <-]].
Qed.

Lemma quiet_create_hash_file (filepath final_dir : string) :
  quiet (create_hash_file filepath final_dir).
Proof.
  unfold create_hash_file. apply quiet_bind; [apply quiet_get_sha256_sum|]. intros digest.
  apply quiet_bind; [apply quiet_open_w|]. intros _.
  apply quiet_bind; [apply quiet_file_write|]. intros _.
  apply quiet_bind; [apply quiet_file_write|]. intros _. apply quiet_file_write.
Qed.

Section Quiet.
Context (E : env).

Lemma quiet_zip_write (filename : string) (arcname : option string) :
  quiet (zip_write E filename arcname).
Proof.
  intros [f a] s' e. unfold zip_write. destruct (f !! filename) as [nd|]; [|now intros [= _ <-]].
  unfold zip_arcname. destruct (nonempty _); [discriminate | now intros [= _ <-]].
Qed.

Lemma quiet_tar_add (name : string) (arcname : option string) :
  quiet (tar_add E name arcname).
Proof.
  intros [f a] s' e. unfold tar_add. destruct (String.eqb name (arc_name a)); [discriminate|].
  destruct (f !! name) as [nd|]; [discriminate | now intros [= _ <-]].
Qed.

Lemma quiet_with_ZipFile (path : string) (body : io (fs * archive) unit) :
  quiet body -> quiet (with_ZipFile E path body).
Proof.
  intros Hb f f' e. unfold with_ZipFile.
  destruct (open_w path _ f) as [f1 [e1|[]]] eqn:Eo.
  - intros [= _ <-]. eapply quiet_open_w, Eo.
  - destruct (body _) as [[f2 a] r] eqn:Eb. intros [= _ ->]. eapply Hb, Eb.
Qed.

Lemma quiet_with_TarFile (path : string) (body : io (fs * archive) unit) :
  quiet body -> quiet (with_TarFile E path body).
Proof.
  intros Hb f f' e. unfold with_TarFile.
  destruct (open_w path _ f) as [f1 [e1|[]]] eqn:Eo.
  - intros [= _ <-]. eapply quiet_open_w, Eo.
  - destruct (body _) as [[f2 a] [e2|[]]] eqn:Eb; [|discriminate].
    intros [= _ <-]. eapply Hb, Eb.
Qed.

Lemma quiet_archive_files (fmt : archive_format) (binary version target final_dir : string) :
  quiet (archive_files E fmt binary version target final_dir).
Proof.
  destruct fmt; cbn [archive_files]; unfold tar_files, zip_files.
  - apply quiet_bind; [|intros _; apply quiet_create_hash_file].
    apply quiet_with_TarFile, quiet_bind; [apply quiet_tar_add|].
    intros _. apply quiet_for_each. intros x. apply quiet_tar_add.
  - apply quiet_bind; [|intros _; apply quiet_create_hash_file].
    apply quiet_with_ZipFile, quiet_bind; [apply quiet_zip_write|].
    intros _. apply quiet_for_each. intros x. apply quiet_zip_write.
Qed.

Lemma main_after_build (target_dir target version final_dir : string) (f f1 : fs) :
  run_process E (build_cmd target_dir target) f = (f1, 0%Z) ->
  __main__ E target_dir target version final_dir f =
    (ensure_dir final_dir ;;
     archive_files E (archive_format_of target) (binary_path_of target_dir target)
       version target final_dir) f1.
Proof.
  intros Hb. unfold __main__.
  rewrite (bind_ok _ _ f f1 tt); [|unfold subprocess_run_checked; now rewrite Hb].
  unfold archive_files, binary_path_of. now destruct (archive_format_of target).
Qed.

End Quiet.

(** X7: the run ends with CalledProcessError exactly when the build
    returns a nonzero status; the error then carries the build command and
    that status, and the file system is as the build left it: no directory
    made, nothing archived.  No later step can raise that error. *)
Theorem build_failure_stops_run (E : env) (target_dir target version final_dir : string)
    (f : fs) (argv : list string) (rc : Z) :
  let built := run_process E (build_cmd target_dir target) f in
  let r := __main__ E target_dir target version final_dir f in
  (snd built <> 0%Z ->
   r = (fst built, inl (CalledProcessError (build_cmd target_dir target) (snd built)))) /\
  (snd r = inl (CalledProcessError argv rc) ->
   snd built = rc /\ rc <> 0%Z /\ argv = build_cmd target_dir target /\ fst r = fst built).
Proof.
  intros built r.
  assert (Hfail : snd built <> 0%Z ->
            r = (fst built, inl (CalledProcessError (build_cmd target_dir target) (snd built)))).
  { intros Hrc. subst r built. unfold __main__.
    apply bind_raise. unfold subprocess_run_checked.
    destruct (run_process E _ f) as [f1 rc1]. cbn [fst snd] in *.
    apply Z.eqb_neq in Hrc. now rewrite Hrc. }
  split; [exact Hfail|]. intros Hr.
  destruct (Z.eq_dec (snd built) 0%Z) as [Hz|Hnz].
  - exfalso. subst r. destruct built as [f1 rc1] eqn:Eb. cbn [snd] in Hz. subst rc1.
    rewrite (main_after_build E _ _ _ _ _ _ Eb) in Hr.
    destruct ((ensure_dir final_dir ;; archive_files E _ _ version target final_dir) f1)
      as [f2 [e|u]] eqn:Er; [|discriminate Hr].
    cbn [snd] in Hr. injection Hr as ->.
    pose proof (quiet_bind (ensure_dir final_dir) _ (quiet_ensure_dir final_dir)
                  (fun _ => quiet_archive_files E _ _ version target final_dir)
                  _ _ _ Er) as Hq.
    discriminate Hq.
  - rewrite (Hfail Hnz) in Hr. cbn [snd] in Hr. injection Hr as Ha Hrc.
    rewrite (Hfail Hnz). cbn [fst]. rewrite <- Hrc. now repeat split.
Qed.

Lemma build_failure_stops_run_witness :
  __main__ failing_build_env "target" "x86_64-apple-darwin" "0.1.0" "dist" ∅ =
    (∅, inl (CalledProcessError
               ["cargo"; "build"; "--release"; "--target"; "x86_64-apple-darwin";
                "--target-dir"; "target"] 101)).
Proof.
  destruct (build_failure_stops_run failing_build_env "target" "x86_64-apple-darwin"
              "0.1.0" "dist" ∅ [] 0%Z) as [H _].
  apply H. discriminate.
Defined.

(** ** The hash record *)





Lemma parent_error_insert (f : fs) (p k : string) (v : node) :
  dirname p <> k -> parent_error (<[k := v]> f) p = parent_error f p.
Proof. intros H. unfold parent_error. now rewrite lookup_insert_ne by congruence. Qed.

Lemma dirname_shorter (p : string) :
  basename p <> "" -> (String.length (dirname p) < String.length p)%nat.
Proof.
  intros Hb. unfold dirname, basename in *.
  pose proof (path_split_length p (fst (path_split p)) (snd (path_split p))) as L.
  rewrite <- surjective_pairing in L. specialize (L eq_refl).
  assert (Hs : snd (path_split p) = snd (cut_at_last_sep p)).
  { unfold path_split. now destruct (cut_at_last_sep p). }
  rewrite Hs in L. destruct (snd (cut_at_last_sep p)); [contradiction|]. simpl in L. lia.
Qed.

Lemma hash_path_basename (filepath final_dir : string) :
  basename (hash_path_of filepath final_dir) = basename filepath +:+ ".sha256".
Proof.
  unfold hash_path_of, path_join. simpl. apply basename_join2.
  rewrite char_in_app. now rewrite basename_no_sep.
Qed.

Lemma hash_path_not_file (filepath final_dir : string) :
  hash_path_of filepath final_dir <> filepath.
Proof.
  intros H. pose proof (hash_path_basename filepath final_dir) as B.
  rewrite H in B. apply (f_equal String.length) in B.
  rewrite Os.length_append in B. simpl in B. lia.
Qed.

(** X9: writing the hash record again changes nothing: with the
    file readable and the record writable, the record is never the file
    itself, and a second call of [create_hash_file] leaves exactly the file
    system the first one left. *)
Theorem create_hash_file_idempotent (f : fs) (filepath final_dir : string) (data : list byte) :
  f !! filepath = Some (File data) ->
  f !! hash_path_of filepath final_dir <> Some Dir ->
  parent_error f (hash_path_of filepath final_dir) = None ->
  hash_path_of filepath final_dir <> filepath /\
  create_hash_file filepath final_dir (fst (create_hash_file filepath final_dir f)) =
    create_hash_file filepath final_dir f.
Proof.
  intros Hf Hd Hp. pose proof (hash_path_not_file filepath final_dir) as Hne.
  split; [exact Hne|].
  rewrite (create_hash_file_ok f _ _ data Hf Hd Hp). cbn [fst].
  rewrite (create_hash_file_ok _ _ _ data).
  - now rewrite insert_insert_eq.
  - rewrite lookup_insert_ne by exact Hne. exact Hf.
  - rewrite lookup_insert_eq. discriminate.
  - rewrite parent_error_insert; [exact Hp|].
    intros H. pose proof (dirname_shorter (hash_path_of filepath final_dir)) as L.
    rewrite H in L. rewrite hash_path_basename in L.
    assert (Hb : basename filepath +:+ ".sha256" <> "") by now apply app_nonempty_r.
    specialize (L Hb). lia.
Qed.

Lemma create_hash_file_idempotent_witness :
  create_hash_file "dist/archive.zip" "dist"
    (fst (create_hash_file "dist/archive.zip" "dist" one_archive)) =
  create_hash_file "dist/archive.zip" "dist" one_archive.
Proof.
  apply (create_hash_file_idempotent one_archive "dist/archive.zip" "dist"
           (String.list_byte_of_string "abc")).
  - reflexivity.
  - vm_compute. discriminate.
  - reflexivity.
Defined.

(** ** The members and their bytes *)



Section Contents.
Context (E : env).





End Contents.






(** X14: the empty output directory.  [os.path.exists] does not hold of
    the empty path and [os.mkdir] cannot make it: when the build returns 0
    and the output directory is given as the empty string, the run ends
    with FileNotFoundError naming the empty path, and leaves the file
    system as the build left it. *)
Theorem empty_output_directory_fails (E : env) (target_dir target version : string)
    (f f1 : fs) :
  run_process E (build_cmd target_dir target) f = (f1, 0%Z) ->
  __main__ E target_dir target version "" f = (f1, inl (FileNotFoundError "")).
Proof.
  intros Hbuild. rewrite (main_after_build E _ _ _ _ _ _ Hbuild).
  apply bind_raise. reflexivity.
Qed.

Lemma empty_output_directory_fails_witness :
  __main__ plain_env "target" "x86_64-apple-darwin" "0.1.0" "" staged =
    (staged, inl (FileNotFoundError "")).
Proof. apply empty_output_directory_fails. reflexivity. Defined.

End CiBuildMore.

(* ===================================================================== *)
(** * The release archiver: what an archive holds, what is left alone *)
(* ===================================================================== *)

Module ZipReleasesMore.
Import PyStr PyStrFacts Os OsFacts CiBuild CiBuildFacts ZipReleases ZipReleasesFacts.
Import Scenarios ArchiveNames CiBuildMore.

Lemma for_each_keeps {S A} (P : S -> Prop) (body : A -> io S unit) (l : list A) :
  (forall x s, In x l -> P s -> P (fst (body x s))) ->
  forall s, P s -> P (fst (for_each body l s)).
Proof.
  induction l as [|x l IH]; intros Hb s Hs; [exact Hs|].
  cbn [for_each]. unfold mbind, io_bind.
  pose proof (Hb x s (or_introl eq_refl) Hs) as Hx.
  destruct (body x s) as [s1 [e|u]]; cbn [fst] in *; [exact Hx|].
  apply IH; [|exact Hx]. intros y s' Hy. apply Hb. now right.
Qed.

Section Kept.
Context (E : env).

Lemma package_binary_keeps (version arch binary : string) (f : fs) (k : string) (v : node) :
  k <> zip_path_of version arch ->
  f !! k = Some v ->
  fst (package_binary E version arch binary f) !! k = Some v.
Proof.
  intros Hk Hf. unfold package_binary.
  fold (zip_dir_of version). fold (zip_path_of version arch).
  unfold mbind at 1, io_bind at 1.
  pose proof (makedirs_preserves (zip_dir_of version) true f k v Hf) as Hm.
  destruct (makedirs (zip_dir_of version) true f) as [f1 [e|u]]; cbn [fst] in Hm;
    [exact Hm|].
  rewrite with_ZipFile_frame; [exact Hm | | exact Hk].
  apply framed_bind; [apply framed_zip_write|].
  intros _. apply framed_for_each. intros x. apply framed_zip_write.
Qed.

End Kept.



(** X13: a run of [main] deletes and alters nothing but the
    archives: whatever the arguments and however the run ends, every path
    that was there and is not the archive path of one of the three targets
    for the version given still holds what it held. *)
Theorem main_keeps_other_paths (E : env) (argv : list string) (f : fs)
    (k : string) (v : node) :
  f !! k = Some v ->
  (forall version arch binary,
     argv !! 1%nat = Some version -> In (arch, binary) BINARIES ->
     k <> zip_path_of version arch) ->
  fst (main E argv f) !! k = Some v.
Proof.
  intros Hf Hk. unfold main.
  destruct (argv !! 1%nat) as [version|]; [|exact Hf].
  unfold package_each.
  apply (for_each_keeps (fun s : fs => s !! k = Some v)); [|exact Hf].
  intros [arch binary] s Hin Hs. apply package_binary_keeps; [|exact Hs].
  now apply (Hk version arch binary).
Qed.

Lemma main_keeps_other_paths_witness :
  fst (main plain_env ["zip_releases.py"; "1.0.0"] staged_release) !! "LICENSE" =
    Some (File []).
Proof.
  apply main_keeps_other_paths.
  - reflexivity.
  - intros version arch binary [= <-] Hin. vm_compute in Hin.
    destruct Hin as [[= <- _]|[[= <- _]|[[= <- _]|[]]]]; vm_compute; discriminate.
Defined.

End ZipReleasesMore.
